(** * Agent session orchestration: a shallow embedding of the GEO-Agent core

  The development follows the TypeScript sources:
  - [src/common/storage.ts]                     (module [Storage])
  - [src/process/task/GeminiAgentManager.ts]    (modules [McpProjection], [Manager],
                                                 [Bootstrap])
  - [src/renderer/messages/MessageToolGroup.tsx] (modules [ToolConfirmation],
                                                 [ToolGroup])
  - [src/agent/gemini/cli/tools/conversation-tool-config.ts] (module [ToolConfig])
  - the model-capability helper                 (modules [RegExp], [Capabilities])
  - the MCP management section of the settings  (module [McpManagement])

  JavaScript objects used as dictionaries and the [Map] cache are finite
  maps ([gmap]); optional fields are [option]; the effects of the manager
  are threaded through an explicit state that also records the order of
  the calls made to its collaborators. *)

From Stdlib Require Import List Bool Ascii String Arith Lia.
From stdpp Require Import base option list strings gmap fin_maps.

Local Open Scope string_scope.
Local Open Scope list_scope.

(* ===================================================================== *)
(** ** storage.ts: the stored data model                                  *)
(* ===================================================================== *)

Module Storage.

(** [ModelType]: the capability tags of a provider. *)
Inductive ModelType : Type :=
| text
| vision
| function_calling
| web_search
| reasoning
| embedding
| rerank
| excludeFromPrimary.

Definition ModelType_eqb (a b : ModelType) : bool :=
  match a, b with
  | text, text | vision, vision | function_calling, function_calling
  | web_search, web_search | reasoning, reasoning | embedding, embedding
  | rerank, rerank | excludeFromPrimary, excludeFromPrimary => true
  | _, _ => false
  end.

(** The string a [ModelType] is at run time (it is a union of literals). *)
Definition ModelType_str (t : ModelType) : string :=
  match t with
  | text => "text"
  | vision => "vision"
  | function_calling => "function_calling"
  | web_search => "web_search"
  | reasoning => "reasoning"
  | embedding => "embedding"
  | rerank => "rerank"
  | excludeFromPrimary => "excludeFromPrimary"
  end.

Record ModelCapability : Type := {
  cap_type : ModelType;
  isUserSelected : option bool
}.

Record IProvider : Type := {
  id : string;
  platform : string;
  name : string;
  baseUrl : string;
  apiKey : string;
  model : list string;
  capabilities : option (list ModelCapability);
  contextLimit : option nat
}.

(** [IMcpServerTransport]: a union tagged by [type]. *)
Inductive IMcpServerTransport : Type :=
| TransportStdio (command : string) (args : option (list string))
                 (env : option (gmap string string))
| TransportSSE (url : string) (headers : option (gmap string string))
| TransportHTTP (url : string) (headers : option (gmap string string))
| TransportStreamableHTTP (url : string) (headers : option (gmap string string)).

Inductive McpStatus : Type :=
| connected
| disconnected
| error
| testing.

Record IMcpTool : Type := {
  tool_name : string;
  tool_description : option string
}.

Record IMcpServer : Type := {
  server_id : string;
  server_name : string;
  server_description : option string;
  enabled : bool;
  transport : IMcpServerTransport;
  tools : option (list IMcpTool);
  status : option McpStatus;
  lastConnected : option nat;
  createdAt : nat;
  updatedAt : nat;
  originalJson : string
}.

End Storage.

(* ===================================================================== *)
(** ** GeminiAgentManager.getMcpServers: the MCP projection               *)
(* ===================================================================== *)

Module McpProjection.
Import Storage.

Record UiMcpServerConfig : Type := {
  command : string;
  args : list string;
  env : gmap string string;
  description : option string
}.

(** What [await ProcessConfig.get('mcp.config')] can do: throw, yield a
    value that fails the [!mcpServers || !Array.isArray(mcpServers)]
    guard, or yield an array of servers. *)
Inductive ConfigRead : Type :=
| ReadThrows
| ReadNotArray
| ReadArray (mcpServers : list IMcpServer).

(** [server.status === 'connected'] *)
Definition is_connected (s : option McpStatus) : bool :=
  match s with
  | Some connected => true
  | _ => false
  end.

(** The predicate handed to [.filter]. *)
Definition keep (server : IMcpServer) : bool :=
  enabled server && is_connected (status server).

(** [o[key] = value] on an object created by [{}], whose values are
    objects: the map is the map of the object's own properties, the ones
    that are enumerated and serialised. A later assignment under the same
    key replaces the earlier one. The key [__proto__] is the accessor
    inherited from [Object.prototype]: assigning an object under it changes
    the prototype and creates no own property. *)
Definition js_assign {V} (key : string) (value : V) (o : gmap string V)
  : gmap string V :=
  if String.eqb key "__proto__" then o else <[key := value]> o.

(** The body of the [.forEach] callback. *)
Definition assign (mcpConfig : gmap string UiMcpServerConfig)
           (server : IMcpServer) : gmap string UiMcpServerConfig :=
  match transport server with
  | TransportStdio cmd a e =>
      js_assign (server_name server)
        {| command := cmd;
           args := default [] a;
           env := default ∅ e;
           description := server_description server |} mcpConfig
  | _ => mcpConfig
  end.

Definition getMcpServers (read : ConfigRead) : gmap string UiMcpServerConfig :=
  match read with
  | ReadThrows => ∅
  | ReadNotArray => ∅
  | ReadArray mcpServers => foldl assign ∅ (List.filter keep mcpServers)
  end.

(** *** Vocabulary of the statements *)

Definition is_stdio (t : IMcpServerTransport) : bool :=
  match t with
  | TransportStdio _ _ _ => true
  | _ => false
  end.

(** enabled, connected and locally launchable, all at once *)
Definition qualifies (server : IMcpServer) : bool :=
  enabled server && is_connected (status server) && is_stdio (transport server).

(** the entry built from a stdio server *)
Definition entry_of (server : IMcpServer) : option UiMcpServerConfig :=
  match transport server with
  | TransportStdio cmd a e =>
      Some {| command := cmd; args := default [] a; env := default ∅ e;
              description := server_description server |}
  | _ => None
  end.

(** [server] is the last qualifying server of the list that is named [n]. *)
Definition last_qualifying (l : list IMcpServer) (n : string)
           (server : IMcpServer) : Prop :=
  ∃ l1 l2, l = l1 ++ server :: l2
           ∧ server_name server = n
           ∧ qualifies server = true
           ∧ ∀ s', s' ∈ l2 → qualifies s' = true → server_name s' ≠ n.

(** The projection read server by server: a qualifying server is found
    under its name with its own entry, any other server has no entry
    under its name. *)
Definition projects_each_server (l : list IMcpServer)
           (m : gmap string UiMcpServerConfig) : Prop :=
  ∀ server, server ∈ l →
    if qualifies server
    then m !! server_name server = entry_of server
    else m !! server_name server = None.

(** The projection read server by server when the reserved key is taken
    into account: a qualifying server whose name is not [__proto__] is
    found under its name with its own entry, any other server has no entry
    under its name. *)
Definition projects_each_named_server (l : list IMcpServer)
           (m : gmap string UiMcpServerConfig) : Prop :=
  ∀ server, server ∈ l →
    if qualifies server && negb (String.eqb (server_name server) "__proto__")
    then m !! server_name server = entry_of server
    else m !! server_name server = None.

(** One pass over the unfiltered list. *)
Definition step (m : gmap string UiMcpServerConfig) (server : IMcpServer) :=
  if keep server then assign m server else m.

Lemma foldl_filter_step l m :
  foldl assign m (List.filter keep l) = foldl step m l.
Proof.
  revert m. induction l as [|s l IH]; intros m; simpl; [done|].
  unfold step at 2. destruct (keep s); simpl; apply IH.
Qed.

Lemma step_qualifies m s :
  qualifies s = true →
  ∃ c, entry_of s = Some c ∧ step m s = js_assign (server_name s) c m.
Proof.
  unfold qualifies, step, keep, assign, entry_of, is_stdio.
  destruct (enabled s), (is_connected (status s)), (transport s);
    simpl; try discriminate; eauto.
Qed.

Lemma js_assign_lookup {V} key (value : V) o n :
  js_assign key value o !! n
  = if bool_decide (key = n ∧ n ≠ "__proto__") then Some value else o !! n.
Proof.
  unfold js_assign. destruct (String.eqb_spec key "__proto__") as [->|Hk].
  - rewrite bool_decide_eq_false_2; [done|]. by intros [<- ?].
  - destruct (decide (key = n)) as [<-|Hne].
    + rewrite lookup_insert_eq. by rewrite bool_decide_eq_true_2.
    + rewrite lookup_insert_ne by done.
      rewrite bool_decide_eq_false_2; [done|]. by intros [? _].
Qed.

Lemma getMcpServers_no_proto l :
  getMcpServers (ReadArray l) !! "__proto__" = None.
Proof.
  unfold getMcpServers. generalize (List.filter keep l). intros k.
  assert (∀ m : gmap string UiMcpServerConfig,
             m !! "__proto__" = None → foldl assign m k !! "__proto__" = None) as H.
  { induction k as [|s k IH]; intros m Hm; simpl; [done|].
    apply IH. unfold assign. destruct (transport s); try done.
    rewrite js_assign_lookup. rewrite bool_decide_eq_false_2; [done|].
    by intros [_ ?]. }
  by apply H.
Qed.

Lemma step_not_qualifies m s : qualifies s = false → step m s = m.
Proof.
  unfold qualifies, step, keep, assign, is_stdio.
  destruct (enabled s), (is_connected (status s)), (transport s);
    simpl; try discriminate; eauto.
Qed.

Lemma getMcpServers_snoc l s :
  getMcpServers (ReadArray (l ++ [s])) = step (getMcpServers (ReadArray l)) s.
Proof.
  unfold getMcpServers. rewrite !foldl_filter_step, foldl_app. done.
Qed.

Lemma last_qualifying_nil n s : ¬ last_qualifying [] n s.
Proof. intros (l1 & l2 & H & _). by destruct l1. Qed.

Lemma last_qualifying_snoc_hit l s :
  qualifies s = true → last_qualifying (l ++ [s]) (server_name s) s.
Proof.
  intros Hq. exists l, []. repeat split; try done.
  intros s' Hs'. by apply elem_of_nil in Hs'.
Qed.

Lemma last_qualifying_snoc_keep l n s s0 :
  (qualifies s = true → server_name s ≠ n) →
  last_qualifying l n s0 → last_qualifying (l ++ [s]) n s0.
Proof.
  intros Hs (l1 & l2 & -> & Hn & Hq & Hlast).
  exists l1, (l2 ++ [s]). repeat split; try done.
  - by rewrite <- app_assoc.
  - intros s' [Hin | Hin%list_elem_of_singleton]%elem_of_app Hq'.
    + by apply Hlast.
    + subst s'. by apply Hs.
Qed.

Lemma last_qualifying_snoc_inv l n s s0 :
  last_qualifying (l ++ [s]) n s0 →
  (s0 = s ∧ server_name s = n ∧ qualifies s = true)
  ∨ ((qualifies s = true → server_name s ≠ n) ∧ last_qualifying l n s0).
Proof.
  intros (l1 & l2 & Heq & Hn & Hq & Hlast).
  destruct l2 as [|x l2 _] using rev_ind.
  - apply app_inj_tail in Heq as [_ <-]. by left.
  - rewrite app_comm_cons, app_assoc in Heq.
    apply app_inj_tail in Heq as [-> <-]. right. split.
    + apply Hlast. apply elem_of_app. right. by apply list_elem_of_singleton.
    + exists l1, l2. repeat split; try done.
      intros s' Hs'. apply Hlast. apply elem_of_app. by left.
Qed.

(** Under a name other than the reserved key, the entry is that of the
    last qualifying server of that name. *)
Lemma getMcpServers_lookup_named l n c :
  n ≠ "__proto__" →
  getMcpServers (ReadArray l) !! n = Some c
  ↔ ∃ server, last_qualifying l n server ∧ entry_of server = Some c.
Proof.
  intros Hn. revert c. induction l as [|s l IH] using rev_ind; intros c.
  - simpl. rewrite lookup_empty. split; [done|].
    intros (s & H & _). by apply last_qualifying_nil in H.
  - rewrite getMcpServers_snoc.
    destruct (qualifies s) eqn:Hq.
    + destruct (step_qualifies (getMcpServers (ReadArray l)) s Hq)
        as (c0 & Hc0 & ->).
      rewrite js_assign_lookup.
      destruct (decide (server_name s = n)) as [<- | Hne].
      * rewrite bool_decide_eq_true_2 by done. split.
        -- intros [= <-]. exists s. split; [|done].
           by apply last_qualifying_snoc_hit.
        -- intros (s0 & Hl & He).
           apply last_qualifying_snoc_inv in Hl as [(-> & _) | [Hno _]].
           ++ congruence.
           ++ by destruct (Hno Hq).
      * rewrite bool_decide_eq_false_2 by (by intros [? _]). rewrite IH. split.
        -- intros (s0 & Hl & He). exists s0. split; [|done].
           apply last_qualifying_snoc_keep; [|done]. by intros _.
        -- intros (s0 & Hl & He).
           apply last_qualifying_snoc_inv in Hl as [(-> & Hn' & _) | [_ Hl]];
             [done|]. by exists s0.
    + rewrite step_not_qualifies by done. rewrite IH. split.
      * intros (s0 & Hl & He). exists s0. split; [|done].
        apply last_qualifying_snoc_keep; [|done]. congruence.
      * intros (s0 & Hl & He).
        apply last_qualifying_snoc_inv in Hl as [(-> & _ & Hq') | [_ Hl]];
          [congruence|]. by exists s0.
Qed.

Lemma getMcpServers_lookup l n c :
  getMcpServers (ReadArray l) !! n = Some c
  ↔ n ≠ "__proto__"
    ∧ ∃ server, last_qualifying l n server ∧ entry_of server = Some c.
Proof.
  destruct (decide (n = "__proto__")) as [->|Hn].
  - rewrite getMcpServers_no_proto. split; [done | by intros [? _]].
  - rewrite (getMcpServers_lookup_named l n c Hn). split; [by split|].
    by intros [_ H].
Qed.

(** When no two servers of the list share a name, the server-by-server
    reading holds for the names other than the reserved key. *)
Lemma getMcpServers_distinct_names l :
  NoDup (server_name <$> l) →
  projects_each_named_server l (getMcpServers (ReadArray l)).
Proof.
  intros Hnd s Hs.
  apply list_elem_of_split in Hs as (l1 & l2 & ->).
  rewrite fmap_app, fmap_cons in Hnd.
  apply NoDup_app in Hnd as (_ & Hl1 & Hnd). apply NoDup_cons in Hnd as [Hl2 _].
  destruct (String.eqb_spec (server_name s) "__proto__") as [Hp|Hp].
  { rewrite andb_false_r, Hp. apply getMcpServers_no_proto. }
  rewrite andb_true_r.
  destruct (qualifies s) eqn:Hq.
  - destruct (entry_of s) as [c|] eqn:He.
    + apply getMcpServers_lookup. split; [done|]. exists s. split; [|done].
      exists l1, l2. repeat split; try done.
      intros s' Hs' _ Heq. apply Hl2. rewrite <- Heq. by apply list_elem_of_fmap_2.
    + unfold qualifies, is_stdio in Hq. unfold entry_of in He.
      destruct (transport s); try discriminate;
        by rewrite andb_false_r in Hq.
  - destruct (getMcpServers _ !! server_name s) as [c|] eqn:Hl; [|done].
    apply getMcpServers_lookup in Hl
      as (_ & s0 & (k1 & k2 & Heq & Hn & Hq0 & _) & _).
    assert (s0 ∈ l1 ++ s :: l2) as Hin.
    { rewrite Heq. apply elem_of_app. right. by left. }
    apply elem_of_app in Hin as [Hin | Hin].
    + exfalso. apply (Hl1 (server_name s)); [|by left].
      rewrite <- Hn. by apply list_elem_of_fmap_2.
    + apply elem_of_cons in Hin as [-> | Hin]; [congruence|].
      exfalso. apply Hl2. rewrite <- Hn. by apply list_elem_of_fmap_2.
Qed.

(** *** Sample servers *)

Definition mk_server (i n : string) (en : bool) (t : IMcpServerTransport)
           (st : option McpStatus) : IMcpServer :=
  {| server_id := i; server_name := n; server_description := None;
     enabled := en; transport := t; tools := None; status := st;
     lastConnected := None; createdAt := 0; updatedAt := 0;
     originalJson := "{}" |}.

Definition fs_node : IMcpServer :=
  mk_server "1" "fs" true (TransportStdio "node" (Some ["fs.js"]) None) (Some connected).
Definition fs_python : IMcpServer :=
  mk_server "2" "fs" true (TransportStdio "python" None None) (Some connected).
Definition web_http : IMcpServer :=
  mk_server "3" "web" true (TransportHTTP "http://localhost:1" None) (Some connected).
Definition git_disabled : IMcpServer :=
  mk_server "4" "git" false (TransportStdio "git-mcp" None None) (Some connected).

(** The three servers of the specification's example: only the first is
    projected. *)
Example getMcpServers_three_servers :
  getMcpServers (ReadArray [fs_node; web_http; git_disabled])
  = {[ "fs" := {| command := "node"; args := ["fs.js"]; env := ∅;
                  description := None |} ]}.
Proof. reflexivity. Qed.

(** C3, as stated, fails: two enabled, connected stdio servers stored under
    one name are not both in the projection; the entry under that name is
    the second server's, so the first qualifying server is missing. *)
Lemma getMcpServers_same_name_refutes :
  ¬ projects_each_server [fs_node; fs_python]
      (getMcpServers (ReadArray [fs_node; fs_python])).
Proof.
  intros H. specialize (H fs_node). simpl in H.
  assert (fs_node ∈ [fs_node; fs_python]) as Hin by (by left).
  apply H in Hin. vm_compute in Hin. discriminate Hin.
Qed.

(** A qualifying server stored under the reserved key has no entry. *)
Definition proto_server : IMcpServer :=
  mk_server "5" "__proto__" true (TransportStdio "node" None None) (Some connected).

Example getMcpServers_reserved_key :
  getMcpServers (ReadArray [proto_server; fs_node])
  = {[ "fs" := {| command := "node"; args := ["fs.js"]; env := ∅;
                  description := None |} ]}.
Proof. reflexivity. Qed.

(** C3 (amended): when the stored value cannot be read or is not an array
    the projection is empty; otherwise the projection has an entry (an own
    property) under a name [n] exactly when [n] is not the reserved key
    [__proto__] and some stored server named [n] is at once enabled,
    connected and on the stdio transport, and the entry carries the command,
    args (default empty), env (default empty) and description of the last
    such server in list order. No entry is built from a disabled, not
    connected, or sse / http / streamable_http server. When the stored names
    are pairwise distinct, each server is in the projection under its name
    if it qualifies and is not named [__proto__], and has no entry
    otherwise. *)
Theorem getMcpServers_projection :
  getMcpServers ReadThrows = ∅
  ∧ getMcpServers ReadNotArray = ∅
  ∧ (∀ (l : list IMcpServer) (n : string) (c : UiMcpServerConfig),
       getMcpServers (ReadArray l) !! n = Some c
       ↔ n ≠ "__proto__"
         ∧ ∃ server, last_qualifying l n server ∧ entry_of server = Some c)
  ∧ ∀ l : list IMcpServer,
      NoDup (server_name <$> l) →
      projects_each_named_server l (getMcpServers (ReadArray l)).
Proof.
  split; [done|]. split; [done|]. split.
  - apply getMcpServers_lookup.
  - apply getMcpServers_distinct_names.
Qed.

(** *** Editing the stored list *)

Lemma foldl_step_lookup l m m' n :
  m !! n = m' !! n → foldl step m l !! n = foldl step m' l !! n.
Proof.
  revert m m'. induction l as [|s l IH]; intros m m' H; simpl; [done|].
  apply IH. unfold step, assign.
  destruct (keep s); [|done]. destruct (transport s); try done.
  rewrite !js_assign_lookup. by destruct (bool_decide _).
Qed.

Lemma step_other_name m s n : n ≠ server_name s → step m s !! n = m !! n.
Proof.
  intros Hne. unfold step, assign. destruct (keep s); [|done].
  destruct (transport s); try done. rewrite js_assign_lookup.
  rewrite bool_decide_eq_false_2; [done|]. by intros [? _].
Qed.

(** X20: adding, removing or replacing one stored server (toggling it,
    changing its status or its transport) changes the projection at most
    under the names of the servers involved: every other entry stays. *)
Theorem getMcpServers_local :
  ∀ (l1 l2 : list IMcpServer) (s s' : IMcpServer) (n : string),
    n ≠ server_name s →
    n ≠ server_name s' →
    getMcpServers (ReadArray (l1 ++ s :: l2)) !! n
    = getMcpServers (ReadArray (l1 ++ l2)) !! n
    ∧ getMcpServers (ReadArray (l1 ++ s :: l2)) !! n
      = getMcpServers (ReadArray (l1 ++ s' :: l2)) !! n.
Proof.
  intros l1 l2 s s' n Hs Hs'. unfold getMcpServers.
  rewrite !foldl_filter_step, !foldl_app. simpl.
  assert (∀ x, n ≠ server_name x →
               foldl step (step (foldl step ∅ l1) x) l2 !! n
               = foldl step (foldl step ∅ l1) l2 !! n) as H.
  { intros x Hx. apply foldl_step_lookup. by apply step_other_name. }
  by rewrite !H.
Qed.

Lemma getMcpServers_local_witness :
  getMcpServers (ReadArray ([fs_node] ++ web_http :: [git_disabled])) !! "fs"
  = getMcpServers (ReadArray ([fs_node] ++ [git_disabled])) !! "fs"
  ∧ getMcpServers (ReadArray ([fs_node] ++ web_http :: [git_disabled])) !! "fs"
    = getMcpServers (ReadArray ([fs_node] ++ git_disabled :: [git_disabled])) !! "fs".
Proof.
  apply (getMcpServers_local [fs_node] [git_disabled] web_http git_disabled "fs");
    discriminate.
Defined.


End McpProjection.

(* ===================================================================== *)
(** ** MessageToolGroup.tsx: the confirmation buttons                     *)
(* ===================================================================== *)

Module ToolConfirmation.

(** Modelled from the spec: the enum [ToolConfirmationOutcome] of
    [../types/tool-confirmation], which is not among the sources; its
    members are the ones this component and the specification name. *)
Inductive ToolConfirmationOutcome : Type :=
| ProceedOnce
| ProceedAlways
| ProceedAlwaysServer
| ProceedAlwaysTool
| Cancel.

(** [confirmationDetails]: a union tagged by [type], with the fields the
    component reads in each case. *)
Inductive ConfirmationDetails : Type :=
| EditDetails (title : string) (fileDiff : option string) (fileName : string)
| ExecDetails (command : string)
| InfoDetails (prompt : string)
| McpDetails (toolDisplayName toolName serverName : string).

Inductive Category : Type :=
| edit
| exec
| info
| mcp.

(** [confirmationDetails.type] *)
Definition type_of (d : ConfirmationDetails) : Category :=
  match d with
  | EditDetails _ _ _ => edit
  | ExecDetails _ => exec
  | InfoDetails _ => info
  | McpDetails _ _ _ => mcp
  end.

Record ButtonOption : Type := {
  label : string;
  value : ToolConfirmationOutcome
}.

(** The object the hook returns: [{}] or [{ question, options }]. *)
Record Buttons : Type := {
  question : option string;
  options : option (list ButtonOption)
}.

Section Hook.

(** The translation function [t(key, options?)] of react-i18next. *)
Variable t : string → list (string * string) → string.

Definition useConfirmationButtons (confirmationDetails : option ConfirmationDetails)
  : Buttons :=
  match confirmationDetails with
  | None => {| question := None; options := None |}
  | Some d =>
      match d with
      | EditDetails _ _ _ =>
          {| question := Some (t "messages.confirmation.applyChange" []);
             options := Some
               [ {| label := t "messages.confirmation.yesAllowOnce" [];
                    value := ProceedOnce |};
                 {| label := t "messages.confirmation.yesAllowAlways" [];
                    value := ProceedAlways |};
                 {| label := t "messages.confirmation.no" []; value := Cancel |} ] |}
      | ExecDetails _ =>
          {| question := Some (t "messages.confirmation.allowExecution" []);
             options := Some
               [ {| label := t "messages.confirmation.yesAllowOnce" [];
                    value := ProceedOnce |};
                 {| label := t "messages.confirmation.yesAllowAlways" [];
                    value := ProceedAlways |};
                 {| label := t "messages.confirmation.no" []; value := Cancel |} ] |}
      | InfoDetails _ =>
          {| question := Some (t "messages.confirmation.proceed" []);
             options := Some
               [ {| label := t "messages.confirmation.yesAllowOnce" [];
                    value := ProceedOnce |};
                 {| label := t "messages.confirmation.yesAllowAlways" [];
                    value := ProceedAlways |};
                 {| label := t "messages.confirmation.no" []; value := Cancel |} ] |}
      | McpDetails _ toolName serverName =>
          {| question := Some (t "messages.confirmation.allowMCPTool"
                                 [("toolName", toolName); ("serverName", serverName)]);
             options := Some
               [ {| label := t "messages.confirmation.yesAllowOnce" [];
                    value := ProceedOnce |};
                 {| label := t "messages.confirmation.yesAlwaysAllowTool"
                               [("toolName", toolName); ("serverName", serverName)];
                    value := ProceedAlwaysTool |};
                 {| label := t "messages.confirmation.yesAlwaysAllowServer"
                               [("serverName", serverName)];
                    value := ProceedAlwaysServer |};
                 {| label := t "messages.confirmation.no" []; value := Cancel |} ] |}
      end
  end.

(** [const { question = '', options = [] } = useConfirmationButtons(...)]:
    the outcomes of the options the hook computes, in their order. This is
    the hook's result only; what the [ConfirmationDetails] component then
    renders from it is not modelled (its Confirming branch also uses a
    [Button] that the file does not import). *)
Definition offered_outcomes (confirmationDetails : option ConfirmationDetails)
  : list ToolConfirmationOutcome :=
  value <$> default [] (options (useConfirmationButtons confirmationDetails)).

End Hook.

(** C7: the outcomes that [useConfirmationButtons] computes for a tool call
    are a function of the category ([confirmationDetails.type]) alone: for
    edit, exec and info they are ProceedOnce, ProceedAlways, Cancel; for mcp
    they are ProceedOnce, ProceedAlwaysTool, ProceedAlwaysServer, Cancel,
    whatever the translation function and the other fields of the details
    are. *)
Theorem offered_outcomes_by_category :
  ∀ (t : string → list (string * string) → string) (d : ConfirmationDetails),
    offered_outcomes t (Some d)
    = match type_of d with
      | edit | exec | info => [ProceedOnce; ProceedAlways; Cancel]
      | mcp => [ProceedOnce; ProceedAlwaysTool; ProceedAlwaysServer; Cancel]
      end.
Proof. intros t d. by destruct d. Qed.

(** Without confirmation details the hook returns the empty object and no
    outcome is offered. *)
Lemma offered_outcomes_none t : offered_outcomes t None = [].
Proof. done. Qed.

End ToolConfirmation.

(* ===================================================================== *)
(** ** conversation-tool-config.ts: per-conversation tool configuration   *)
(* ===================================================================== *)

Module ToolConfig.

(** ['google' | 'default'] *)
Inductive WebSearchEngine : Type :=
| google
| default_engine.

Record ConversationToolConfigOptions : Type := {
  proxy : string;
  opt_webSearchEngine : option WebSearchEngine
}.

(** [AuthType] of the agent runtime library: the two members this file
    names, and any other member by its tag. *)
Inductive AuthType : Type :=
| LOGIN_WITH_GOOGLE
| USE_OPENAI
| OtherAuthType (tag : string).

(** [authType === AuthType.USE_OPENAI] *)
Definition is_USE_OPENAI (a : AuthType) : bool :=
  match a with
  | USE_OPENAI => true
  | _ => false
  end.

(** [webSearchEngine === 'google'] *)
Definition is_google (e : WebSearchEngine) : bool :=
  match e with
  | google => true
  | default_engine => false
  end.

(** [TProviderWithModel], with the fields [findBestGeminiModel] fills. *)
Record TProviderWithModel : Type := {
  id : string;
  name : string;
  platform : string;
  baseUrl : string;
  apiKey : string;
  useModel : string
}.

(** The parameters of the dedicated [Config]. *)
Record Config : Type := {
  sessionId : string;
  targetDir : string;
  cwd : string;
  debugMode : bool;
  cfg_question : string;
  userMemory : string;
  geminiMdFileCount : nat;
  cfg_model : string
}.

(** The client obtained from a [Config] by [getGeminiClient()]. *)
Record GeminiClient : Type := {
  client_of : Config
}.

(** The private fields of the class. *)
Record ConversationToolConfig : Type := {
  useGeminiWebSearch : bool;
  useAionuiWebFetch : bool;
  geminiModel : option TProviderWithModel;
  excludeTools : list string;
  dedicatedGeminiClient : option GeminiClient;
  dedicatedConfig : option Config;
  webSearchEngine : WebSearchEngine
}.

(** [constructor(options)]: the field initialisers, then
    [options.webSearchEngine ?? 'default']. *)
Definition constructor (options : ConversationToolConfigOptions)
  : ConversationToolConfig :=
  {| useGeminiWebSearch := false;
     useAionuiWebFetch := false;
     geminiModel := None;
     excludeTools := [];
     dedicatedGeminiClient := None;
     dedicatedConfig := None;
     webSearchEngine := default default_engine (opt_webSearchEngine options) |}.

(** [this.excludeTools.push(tool)] *)
Definition push_excludeTools (tool : string) (this : ConversationToolConfig)
  : ConversationToolConfig :=
  {| useGeminiWebSearch := useGeminiWebSearch this;
     useAionuiWebFetch := useAionuiWebFetch this;
     geminiModel := geminiModel this;
     excludeTools := excludeTools this ++ [tool];
     dedicatedGeminiClient := dedicatedGeminiClient this;
     dedicatedConfig := dedicatedConfig this;
     webSearchEngine := webSearchEngine this |}.

Definition set_useAionuiWebFetch (b : bool) (this : ConversationToolConfig)
  : ConversationToolConfig :=
  {| useGeminiWebSearch := useGeminiWebSearch this;
     useAionuiWebFetch := b;
     geminiModel := geminiModel this;
     excludeTools := excludeTools this;
     dedicatedGeminiClient := dedicatedGeminiClient this;
     dedicatedConfig := dedicatedConfig this;
     webSearchEngine := webSearchEngine this |}.

Definition set_useGeminiWebSearch (b : bool) (this : ConversationToolConfig)
  : ConversationToolConfig :=
  {| useGeminiWebSearch := b;
     useAionuiWebFetch := useAionuiWebFetch this;
     geminiModel := geminiModel this;
     excludeTools := excludeTools this;
     dedicatedGeminiClient := dedicatedGeminiClient this;
     dedicatedConfig := dedicatedConfig this;
     webSearchEngine := webSearchEngine this |}.

Definition initializeForConversation (authType : AuthType)
           (this : ConversationToolConfig) : ConversationToolConfig :=
  let this := set_useAionuiWebFetch true this in
  let this := push_excludeTools "web_fetch" this in
  if is_google (webSearchEngine this) && is_USE_OPENAI authType
  then push_excludeTools "google_web_search" (set_useGeminiWebSearch true this)
  else this.

(** The object literal [getConfig()] returns; [excludeTools] is the
    instance's own array. *)
Record ToolConfigView : Type := {
  view_useGeminiWebSearch : bool;
  view_useAionuiWebFetch : bool;
  view_geminiModel : option TProviderWithModel;
  view_excludeTools : list string
}.

Definition getConfig (this : ConversationToolConfig) : ToolConfigView :=
  {| view_useGeminiWebSearch := useGeminiWebSearch this;
     view_useAionuiWebFetch := useAionuiWebFetch this;
     view_geminiModel := geminiModel this;
     view_excludeTools := excludeTools this |}.

(** How far the set-up of the dedicated configuration gets inside the
    [try] block: everything returns, or the first exception comes from
    [createDedicatedGeminiConfig] ([process.cwd()] or [new Config]), from
    [initialize()], from [refreshAuth()] or from [getGeminiClient()]. *)
Inductive DedicatedAuth : Type :=
| AuthSucceeds
| CreateConfigThrows
| InitializeThrows
| RefreshAuthThrows
| GetGeminiClientThrows.

(** What the surroundings supply while [registerCustomTools] runs: the
    fresh [uuid()], the rendering of [Date.now()], [process.cwd()], and the
    outcome of the set-up of the dedicated configuration. The tool
    registry, the tool constructors and [setTools()] are taken to return. *)

Record Surroundings : Type := {
  uuid : string;
  now : string;
  process_cwd : string;
  dedicated_auth : DedicatedAuth
}.

Definition findBestGeminiModel (uuid : string) (this : ConversationToolConfig)
  : option TProviderWithModel :=
  let hasGoogleAuth := is_google (webSearchEngine this) in
  if hasGoogleAuth
  then Some {| id := uuid;
               name := "Gemini Google Auth";
               platform := "gemini-with-google-auth";
               baseUrl := EmptyString;
               apiKey := EmptyString;
               useModel := "gemini-2.5-flash" |}
  else None.

Definition createDedicatedGeminiConfig (s : Surroundings)
           (geminiModel : TProviderWithModel) : Config :=
  {| sessionId := String.append "gemini-websearch-" (now s);
     targetDir := process_cwd s;
     cwd := process_cwd s;
     debugMode := false;
     cfg_question := EmptyString;
     userMemory := EmptyString;
     geminiMdFileCount := 0;
     cfg_model := useModel geminiModel |}.

Inductive RegisteredTool : Type :=
| WebFetchTool
| WebSearchTool (config : Config).

Definition set_dedicated (gm : option TProviderWithModel) (c : option Config)
           (cl : option GeminiClient) (this : ConversationToolConfig)
  : ConversationToolConfig :=
  {| useGeminiWebSearch := useGeminiWebSearch this;
     useAionuiWebFetch := useAionuiWebFetch this;
     geminiModel := gm;
     excludeTools := excludeTools this;
     dedicatedGeminiClient := cl;
     dedicatedConfig := c;
     webSearchEngine := webSearchEngine this |}.

(** The [try] block of [registerCustomTools]: the instance afterwards and
    the search tool registered, if any. An exception leaves the fields
    assigned before it and is swallowed by the [catch]: [this.geminiModel]
    is assigned before [createDedicatedGeminiConfig] is called, and
    [this.dedicatedConfig] before the configuration is initialised and
    authenticated. *)
Definition try_register_search (s : Surroundings) (this : ConversationToolConfig)
  : ConversationToolConfig * list RegisteredTool :=
  let attempt :=
    match dedicatedConfig this with
    | Some _ => (this, true)
    | None =>
        match findBestGeminiModel (uuid s) this with
        | Some gm =>
            let this := set_dedicated (Some gm) (dedicatedConfig this)
                          (dedicatedGeminiClient this) this in
            match dedicated_auth s with
            | CreateConfigThrows => (this, false)
            | outcome =>
                let c := createDedicatedGeminiConfig s gm in
                let this := set_dedicated (geminiModel this) (Some c)
                              (dedicatedGeminiClient this) this in
                match outcome with
                | AuthSucceeds =>
                    (set_dedicated (geminiModel this) (dedicatedConfig this)
                       (Some {| client_of := c |}) this, true)
                | _ => (this, false)
                end
            end
        | None => (this, true)
        end
    end in
  let '(this, completed) := attempt in
  match completed, dedicatedConfig this, dedicatedGeminiClient this with
  | true, Some c, Some _ => (this, [WebSearchTool c])
  | _, _, _ => (this, [])
  end.

Definition registerCustomTools (s : Surroundings) (this : ConversationToolConfig)
  : ConversationToolConfig * list RegisteredTool :=
  let fetch := if useAionuiWebFetch this then [WebFetchTool] else [] in
  if useGeminiWebSearch this
  then let '(this, search) := try_register_search s this in (this, fetch ++ search)
  else (this, fetch).

(** *** The conversation after bootstrap

    The global search-engine preference lives in the configuration store;
    the conversation holds its own [ConversationToolConfig]. *)
Record World : Type := {
  preference : WebSearchEngine;
  toolConfig : ConversationToolConfig
}.

Inductive Event : Type :=
| PreferenceChanged (e : WebSearchEngine)
| ConfigRead
| ToolsRegistered (s : Surroundings).

(** Runs the events in order and collects what each [getConfig()] call
    returned. *)
Fixpoint run (events : list Event) (w : World) : list ToolConfigView :=
  match events with
  | [] => []
  | PreferenceChanged e :: rest =>
      run rest {| preference := e; toolConfig := toolConfig w |}
  | ConfigRead :: rest => getConfig (toolConfig w) :: run rest w
  | ToolsRegistered s :: rest =>
      run rest {| preference := preference w;
                  toolConfig := fst (registerCustomTools s (toolConfig w)) |}
  end.

(** Bootstrap of a conversation: the instance is constructed from the
    preference in force at that moment and initialised once. *)
Definition bootstrap (proxy : string) (authType : AuthType) (pref : WebSearchEngine)
  : World :=
  {| preference := pref;
     toolConfig := initializeForConversation authType
                     (constructor {| proxy := proxy;
                                     opt_webSearchEngine := Some pref |}) |}.

(** *** Properties *)

(** The fields [getConfig()] reports as exclusion list and flags. *)
Definition resolution (this : ConversationToolConfig) : list string * bool * bool :=
  (excludeTools this, useAionuiWebFetch this, useGeminiWebSearch this).

Definition view_resolution (v : ToolConfigView) : list string * bool * bool :=
  (view_excludeTools v, view_useAionuiWebFetch v, view_useGeminiWebSearch v).

Lemma try_register_search_resolution s this :
  resolution (fst (try_register_search s this)) = resolution this.
Proof.
  unfold try_register_search, findBestGeminiModel.
  destruct (dedicatedConfig this) as [c|] eqn:Hc; simpl.
  - rewrite Hc. by destruct (dedicatedGeminiClient this).
  - destruct (is_google (webSearchEngine this)); simpl.
    + destruct (dedicated_auth s); simpl; done.
    + rewrite Hc. done.
Qed.

Lemma registerCustomTools_resolution s this :
  resolution (fst (registerCustomTools s this)) = resolution this.
Proof.
  unfold registerCustomTools. destruct (useGeminiWebSearch this) eqn:Hs; [|done].
  pose proof (try_register_search_resolution s this) as H.
  destruct (try_register_search s this) as [this' search]. exact H.
Qed.

Lemma run_resolution events w :
  Forall (λ v, view_resolution v = resolution (toolConfig w)) (run events w).
Proof.
  revert w. induction events as [|e events IH]; intros w; simpl; [constructor|].
  destruct e as [e | | s].
  - apply (IH {| preference := e; toolConfig := toolConfig w |}).
  - constructor; [done | apply IH].
  - specialize (IH {| preference := preference w;
                      toolConfig := fst (registerCustomTools s (toolConfig w)) |}).
    simpl in IH. by rewrite registerCustomTools_resolution in IH.
Qed.

(** Dropping the preference changes from a run. *)
Definition is_preference_change (e : Event) : bool :=
  match e with
  | PreferenceChanged _ => true
  | _ => false
  end.

Lemma run_ignores_preference events p p' this :
  run events {| preference := p; toolConfig := this |}
  = run (List.filter (λ e, negb (is_preference_change e)) events)
        {| preference := p'; toolConfig := this |}.
Proof.
  revert p p' this. induction events as [|e events IH]; intros p p' this;
    simpl; [done|].
  destruct e as [e | | s]; simpl.
  - apply IH.
  - f_equal. apply IH.
  - apply IH.
Qed.

(** A conversation bootstrapped under the ['google'] preference on the
    OpenAI platform: the preference changes and the tools are registered,
    [getConfig()] keeps its exclusion list and flags; only [geminiModel] is
    filled in by the registration. *)
Example getConfig_after_preference_change :
  run [ConfigRead; PreferenceChanged default_engine;
       ToolsRegistered {| uuid := "u1"; now := "1700000000000";
                          process_cwd := "/w"; dedicated_auth := AuthSucceeds |};
       ConfigRead]
      (bootstrap "http://proxy" USE_OPENAI google)
  = [ {| view_useGeminiWebSearch := true; view_useAionuiWebFetch := true;
         view_geminiModel := None;
         view_excludeTools := ["web_fetch"; "google_web_search"] |};
      {| view_useGeminiWebSearch := true; view_useAionuiWebFetch := true;
         view_geminiModel :=
           Some {| id := "u1"; name := "Gemini Google Auth";
                   platform := "gemini-with-google-auth";
                   baseUrl := EmptyString; apiKey := EmptyString;
                   useModel := "gemini-2.5-flash" |};
         view_excludeTools := ["web_fetch"; "google_web_search"] |} ].
Proof. reflexivity. Qed.

(** Initialising twice is not idempotent: the built-in fetch tool is then
    listed twice, which is why the class is initialised once. *)
Example initialize_twice :
  excludeTools
    (initializeForConversation LOGIN_WITH_GOOGLE
       (initializeForConversation LOGIN_WITH_GOOGLE
          (constructor {| proxy := EmptyString; opt_webSearchEngine := None |})))
  = ["web_fetch"; "web_fetch"].
Proof. reflexivity. Qed.

(** C8: after [initializeForConversation(authType)] on a constructed
    [ConversationToolConfig], [useAionuiWebFetch] is true and ['web_fetch']
    is in the exclusion list for every [authType] and preference (this part
    holds from any state of the instance); [useGeminiWebSearch] is true, and
    ['google_web_search'] is in the exclusion list, if and only if the
    preference is ['google'] and the platform is [USE_OPENAI]. *)
Theorem initializeForConversation_resolves :
  ∀ (options : ConversationToolConfigOptions) (authType : AuthType),
    let this := initializeForConversation authType (constructor options) in
    (∀ any : ConversationToolConfig,
        useAionuiWebFetch (initializeForConversation authType any) = true
        ∧ "web_fetch" ∈ excludeTools (initializeForConversation authType any))
    ∧ (useGeminiWebSearch this = true
       ↔ opt_webSearchEngine options = Some google ∧ authType = USE_OPENAI)
    ∧ ("google_web_search" ∈ excludeTools this
       ↔ opt_webSearchEngine options = Some google ∧ authType = USE_OPENAI)
    ∧ excludeTools this
      = if useGeminiWebSearch this
        then ["web_fetch"; "google_web_search"]
        else ["web_fetch"].
Proof.
  intros options authType this. split.
  - intros any. unfold initializeForConversation. simpl.
    destruct (is_google (webSearchEngine any) && is_USE_OPENAI authType); simpl;
      (split; [done|]); rewrite !elem_of_app, !list_elem_of_singleton; auto.
  - subst this. unfold initializeForConversation, constructor. simpl.
    destruct options as [px [[|]|]], authType as [| |tag]; simpl;
      rewrite ?elem_of_cons, ?elem_of_nil; intuition congruence.
Qed.

(** C9: once the configuration of a conversation has been resolved
    (constructed, then initialised once), every later [getConfig()] returns
    the exclusion list and the two activation flags of the resolution,
    whatever tool registrations and changes of the global search-engine
    preference happen in between; the answers are those of the same run
    with the preference changes left out, from any global preference. *)
Theorem getConfig_stable :
  ∀ (options : ConversationToolConfigOptions) (authType : AuthType)
    (pref : WebSearchEngine) (events : list Event),
    let this := initializeForConversation authType (constructor options) in
    let w := {| preference := pref; toolConfig := this |} in
    Forall (λ v, view_excludeTools v = view_excludeTools (getConfig this)
                 ∧ view_useAionuiWebFetch v = view_useAionuiWebFetch (getConfig this)
                 ∧ view_useGeminiWebSearch v = view_useGeminiWebSearch (getConfig this))
           (run events w)
    ∧ ∀ pref', run events w
               = run (List.filter (λ e, negb (is_preference_change e)) events)
                     {| preference := pref'; toolConfig := this |}.
Proof.
  intros options authType pref events this w. split.
  - eapply Forall_impl; [apply run_resolution|].
    intros v Hv. unfold view_resolution, resolution in Hv. simpl in Hv.
    by injection Hv as -> -> ->.
  - intros pref'. apply run_ignores_preference.
Qed.

(** *** Registering the tools *)

(** The world after a run of events. *)
Fixpoint final (events : list Event) (w : World) : World :=
  match events with
  | [] => w
  | PreferenceChanged e :: rest =>
      final rest {| preference := e; toolConfig := toolConfig w |}
  | ConfigRead :: rest => final rest w
  | ToolsRegistered s :: rest =>
      final rest {| preference := preference w;
                    toolConfig := fst (registerCustomTools s (toolConfig w)) |}
  end.

Lemma run_app events1 events2 w :
  run (events1 ++ events2) w = run events1 w ++ run events2 (final events1 w).
Proof.
  revert w. induction events1 as [|e events1 IH]; intros w; [done|].
  destruct e as [e | | s]; simpl; rewrite ?IH; done.
Qed.

(** The dedicated configuration [createDedicatedGeminiConfig] builds for
    the model [findBestGeminiModel] returns. *)
Definition dedicated_config_of (s : Surroundings) : Config :=
  {| sessionId := String.append "gemini-websearch-" (now s);
     targetDir := process_cwd s;
     cwd := process_cwd s;
     debugMode := false;
     cfg_question := EmptyString;
     userMemory := EmptyString;
     geminiMdFileCount := 0;
     cfg_model := "gemini-2.5-flash" |}.

(** X9: on a configuration resolved at bootstrap, [registerCustomTools]
    always registers the fetch tool, first, whatever happens to the
    auxiliary client; it registers the search tool after it exactly when
    the search tool is active and the authentication of the dedicated
    configuration succeeds, and that tool runs on [gemini-2.5-flash]. *)
Theorem registerCustomTools_after_bootstrap :
  ∀ (options : ConversationToolConfigOptions) (authType : AuthType)
    (s : Surroundings),
    let this := initializeForConversation authType (constructor options) in
    snd (registerCustomTools s this)
    = WebFetchTool
      :: match useGeminiWebSearch this, dedicated_auth s with
         | true, AuthSucceeds => [WebSearchTool (dedicated_config_of s)]
         | _, _ => []
         end.
Proof.
  intros [px [[|]|]] [| |tag] [u n d []]; reflexivity.
Qed.

(** Sample surroundings and options. *)
Definition failing_surroundings : Surroundings :=
  {| uuid := "u1"; now := "1"; process_cwd := "/w";
     dedicated_auth := RefreshAuthThrows |}.

Definition working_surroundings (u : string) : Surroundings :=
  {| uuid := u; now := "2"; process_cwd := "/w"; dedicated_auth := AuthSucceeds |}.

Definition no_config_surroundings (u : string) : Surroundings :=
  {| uuid := u; now := "1"; process_cwd := "/w";
     dedicated_auth := CreateConfigThrows |}.

Definition google_options : ConversationToolConfigOptions :=
  {| proxy := EmptyString; opt_webSearchEngine := Some google |}.

(** X10: unless the creation of the dedicated configuration throws in it, a
    registration leaves a state that is a fixed point of every later
    registration, whatever the surroundings then are: the dedicated model,
    configuration and client are not created again. On a configuration
    resolved at bootstrap the later registrations then also register the
    same tools as the first one, with the configuration (and session id) of
    the first. *)
Theorem registerCustomTools_cached :
  ∀ (s1 s2 : Surroundings),
    dedicated_auth s1 ≠ CreateConfigThrows →
    (∀ this : ConversationToolConfig,
        fst (registerCustomTools s2 (fst (registerCustomTools s1 this)))
        = fst (registerCustomTools s1 this))
    ∧ ∀ (options : ConversationToolConfigOptions) (authType : AuthType),
        let this := initializeForConversation authType (constructor options) in
        snd (registerCustomTools s2 (fst (registerCustomTools s1 this)))
        = snd (registerCustomTools s1 this).
Proof.
  intros s1 s2 Hcreated. split.
  - intros [search fetch gm excl client [c|] engine];
      destruct search, engine, s1 as [u1 n1 d1 []];
      try reflexivity; try (by destruct Hcreated); destruct client; reflexivity.
  - intros [px [[|]|]] [| |tag]; destruct s1 as [u1 n1 d1 []];
      try reflexivity; by destruct Hcreated.
Qed.

Lemma registerCustomTools_cached_witness :
  (∀ this : ConversationToolConfig,
      fst (registerCustomTools (working_surroundings "u2")
             (fst (registerCustomTools failing_surroundings this)))
      = fst (registerCustomTools failing_surroundings this))
  ∧ ∀ (options : ConversationToolConfigOptions) (authType : AuthType),
      let this := initializeForConversation authType (constructor options) in
      snd (registerCustomTools (working_surroundings "u2")
             (fst (registerCustomTools failing_surroundings this)))
      = snd (registerCustomTools failing_surroundings this).
Proof.
  apply (registerCustomTools_cached failing_surroundings
           (working_surroundings "u2")).
  discriminate.
Defined.

(** When the creation of the dedicated configuration throws, only the model
    has been stored: the next registration chooses a model and creates a
    configuration again, and ends as it would have without the failed
    one. *)
Lemma registerCustomTools_retried_after_create_failure s1 s2 this :
  dedicated_auth s1 = CreateConfigThrows →
  registerCustomTools s2 (fst (registerCustomTools s1 this))
  = registerCustomTools s2 this.
Proof.
  destruct s1 as [u1 n1 d1 a1]. simpl. intros ->.
  destruct this as [search fetch gm excl client [c|] engine];
    destruct search, engine; try reflexivity; destruct client; reflexivity.
Qed.

(** X11: a failed authentication of the dedicated configuration is never
    retried: the configuration is stored before it is initialised and
    authenticated and before its client is fetched, so when the first
    registration fails in [initialize()], [refreshAuth()] or
    [getGeminiClient()], no later registration registers the search tool,
    even if the authentication would then succeed. *)
Theorem registerCustomTools_failure_sticks :
  ∀ (options : ConversationToolConfigOptions) (authType : AuthType)
    (s1 s2 : Surroundings),
    dedicated_auth s1 = InitializeThrows
    ∨ dedicated_auth s1 = RefreshAuthThrows
    ∨ dedicated_auth s1 = GetGeminiClientThrows →
    let this := initializeForConversation authType (constructor options) in
    snd (registerCustomTools s2 (fst (registerCustomTools s1 this)))
    = [WebFetchTool].
Proof.
  intros [px [[|]|]] [| |tag] [u1 n1 d1 []] s2 [Hfail|[Hfail|Hfail]];
    try done; reflexivity.
Qed.

Lemma registerCustomTools_failure_witness :
  snd (registerCustomTools (working_surroundings "u2")
         (initializeForConversation USE_OPENAI (constructor google_options)))
  = [WebFetchTool; WebSearchTool (dedicated_config_of (working_surroundings "u2"))]
  ∧ snd (registerCustomTools (working_surroundings "u2")
           (fst (registerCustomTools failing_surroundings
                   (initializeForConversation USE_OPENAI
                      (constructor google_options)))))
    = [WebFetchTool].
Proof.
  split; [reflexivity|].
  apply (registerCustomTools_failure_sticks google_options USE_OPENAI
           failing_surroundings).
  right. left. reflexivity.
Defined.

(** An instance on which the dedicated model, once set, comes with its
    configuration: true of a constructed instance, and kept by every
    registration in which the creation of the configuration does not
    throw. *)
Definition model_has_config (this : ConversationToolConfig) : Prop :=
  geminiModel this ≠ None → dedicatedConfig this ≠ None.

(** The registrations of a run in which the creation of the dedicated
    configuration does not throw. *)
Definition config_created (e : Event) : Prop :=
  match e with
  | ToolsRegistered s => dedicated_auth s ≠ CreateConfigThrows
  | _ => True
  end.

Lemma registerCustomTools_model_has_config s this :
  dedicated_auth s ≠ CreateConfigThrows →
  model_has_config this →
  model_has_config (fst (registerCustomTools s this)).
Proof.
  destruct this as [search fetch gm excl client [c|] engine];
    destruct search, engine, s as [u n d []];
    unfold model_has_config; simpl; try done; destruct client; simpl; done.
Qed.

(** Once the configuration is stored, no registration touches the model. *)
Lemma registerCustomTools_keeps_model s this m :
  dedicatedConfig this ≠ None →
  geminiModel this = Some m →
  dedicatedConfig (fst (registerCustomTools s this)) ≠ None
  ∧ geminiModel (fst (registerCustomTools s this)) = Some m.
Proof.
  destruct this as [search fetch gm excl client [c|] engine];
    simpl; intros Hc Hm; [|done].
  destruct search; [|done]. by destruct client.
Qed.

Lemma run_keeps_model events w m :
  dedicatedConfig (toolConfig w) ≠ None →
  geminiModel (toolConfig w) = Some m →
  Forall (λ v, view_geminiModel v = Some m) (run events w).
Proof.
  revert w. induction events as [|e events IH]; intros w Hc Hm; simpl;
    [constructor|].
  destruct e as [e | | s].
  - by apply IH.
  - constructor; [done | by apply IH].
  - destruct (registerCustomTools_keeps_model s (toolConfig w) m Hc Hm).
    by apply IH.
Qed.

Lemma final_model_has_config events w :
  Forall config_created events →
  model_has_config (toolConfig w) → model_has_config (toolConfig (final events w)).
Proof.
  revert w. induction events as [|e events IH]; intros w Hall Hinv; simpl;
    [done|].
  apply Forall_cons in Hall as [He Hall].
  destruct e as [e | | s]; apply IH; simpl; try done.
  by apply registerCustomTools_model_has_config.
Qed.

(** X12: as long as no creation of the dedicated configuration has thrown,
    a dedicated model that a [getConfig()] of a conversation has shown is
    the one every later [getConfig()] shows (same generated id), whatever
    registrations, with whatever outcome, and preference changes come
    afterwards. *)
Theorem getConfig_model_chosen_once :
  ∀ (options : ConversationToolConfigOptions) (authType : AuthType)
    (pref : WebSearchEngine) (before later : list Event)
    (m : TProviderWithModel),
    let w := {| preference := pref;
                toolConfig := initializeForConversation authType
                                (constructor options) |} in
    Forall config_created before →
    view_geminiModel (getConfig (toolConfig (final before w))) = Some m →
    Forall (λ v, view_geminiModel v = Some m) (run later (final before w)).
Proof.
  intros options authType pref before later m w Hbefore Hm.
  apply run_keeps_model; [|exact Hm].
  assert (model_has_config (toolConfig (final before w))) as Hinv.
  { apply final_model_has_config; [done|]. subst w. unfold model_has_config.
    destruct options as [px [[|]|]], authType as [| |tag]; simpl; done. }
  apply Hinv. simpl in Hm. by rewrite Hm.
Qed.

Lemma getConfig_model_chosen_once_witness :
  Forall (λ v, view_geminiModel v
               = Some {| id := "u1"; name := "Gemini Google Auth";
                         platform := "gemini-with-google-auth";
                         baseUrl := EmptyString; apiKey := EmptyString;
                         useModel := "gemini-2.5-flash" |})
         (run [ToolsRegistered (no_config_surroundings "u2");
               ToolsRegistered (working_surroundings "u3");
               PreferenceChanged default_engine; ConfigRead]
              (final [ToolsRegistered failing_surroundings]
                     {| preference := google;
                        toolConfig := initializeForConversation USE_OPENAI
                                        (constructor google_options) |})).
Proof.
  apply (getConfig_model_chosen_once google_options USE_OPENAI google
           [ToolsRegistered failing_surroundings]).
  - repeat constructor. discriminate.
  - reflexivity.
Defined.

(** After a registration in which the creation of the configuration threw,
    [getConfig()] shows a model that the next registration replaces. *)
Example getConfig_model_replaced_after_create_failure :
  view_geminiModel <$>
    run [ToolsRegistered (no_config_surroundings "u1"); ConfigRead;
         ToolsRegistered (working_surroundings "u2"); ConfigRead]
        {| preference := google;
           toolConfig := initializeForConversation USE_OPENAI
                           (constructor google_options) |}
  = [ Some {| id := "u1"; name := "Gemini Google Auth";
              platform := "gemini-with-google-auth";
              baseUrl := EmptyString; apiKey := EmptyString;
              useModel := "gemini-2.5-flash" |};
      Some {| id := "u2"; name := "Gemini Google Auth";
              platform := "gemini-with-google-auth";
              baseUrl := EmptyString; apiKey := EmptyString;
              useModel := "gemini-2.5-flash" |} ].
Proof. reflexivity. Qed.

End ToolConfig.

(* ===================================================================== *)
(** ** GeminiAgentManager.ts: sendMessage and the event listener          *)
(* ===================================================================== *)

Module Manager.

(** [IResponseMessage]: [{ type, data, msg_id, conversation_id }]; the
    payload is kept as text and is [None] when it is undefined, and
    [conversation_id] may be absent on an event that has not been stamped
    yet. *)
Record IResponseMessage : Type := {
  type : string;
  data : option string;
  msg_id : string;
  conversation_id : option string
}.

(** [TMessage], with the fields [sendMessage] fills. *)
Record TMessage : Type := {
  id : string;
  msg_type : string;
  position : string;
  msg_conversation_id : string;
  content : string
}.

(** The argument of [sendMessage]. *)
Record SendData : Type := {
  input : string;
  send_msg_id : string
}.

(** The values assigned to [this.status]; before the first assignment the
    field is undefined ([None]). *)
Inductive Status : Type :=
| pending
| running
| finished.

(** What [JSON.stringify(e)] does: it returns text, returns undefined (a
    function or a symbol), or throws (a cyclic object, a throwing
    [toJSON]). *)
Inductive Stringified : Type :=
| JsonText (s : string)
| JsonUndefined
| JsonThrows.

(** A rejection reason [e], as far as the code looks at it. A promise can
    reject with any value: [nullish] is null or undefined, on which reading
    a property throws; any other value has its [e.message] (absent when
    undefined) and its [JSON.stringify(e)]. *)
Inductive JsError : Type :=
| nullish
| js_value (message : option string) (json : Stringified).

(** How a promise settles. *)
Inductive Settled : Type :=
| Fulfilled
| Rejected (e : JsError).

(** What the manager does that can be seen from outside, in the order it
    does it: its calls to the persistence layer, to the outbound bridge and
    to the base class, its own emissions, the assignments to [status], and
    the points where [sendMessage] suspends and settles. *)
Inductive Action : Type :=
| addMessage (conversation_id : string) (message : TMessage)
| addOrUpdateMessage (conversation_id : string) (message : TMessage)
                     (backend : string)
| responseStream_emit (data : IResponseMessage)
| emit_gemini_message (data : IResponseMessage)
| status_assigned (s : Status)
| await_bootstrap
| nextTickToLocalFinish
| super_sendMessage (data : SendData)
| super_init
| returned (r : Settled).

(** The fields of the manager the code reads and writes; [listeners]
    counts the handlers registered on ['gemini.message']. *)
Record Manager : Type := {
  this_conversation_id : string;
  status : option Status;
  listeners : nat
}.

(** State passing with a log of actions. *)
Definition M (A : Type) : Type := Manager → A * Manager * list Action.

#[local] Instance M_ret : MRet M := λ A a this, (a, this, []).

#[local] Instance M_bind : MBind M := λ A B f c this,
  let '(a, this1, t1) := c this in
  let '(b, this2, t2) := f a this1 in
  (b, this2, t1 ++ t2).

Definition get_this : M Manager := λ this, (this, this, []).

Definition perform (a : Action) : M unit := λ this, (tt, this, [a]).

(** [this.status = s] *)
Definition assign_status (s : Status) : M unit := λ this,
  (tt, {| this_conversation_id := this_conversation_id this;
          status := Some s;
          listeners := listeners this |}, [status_assigned s]).

Definition add_listener : M unit := λ this,
  (tt, {| this_conversation_id := this_conversation_id this;
          status := status this;
          listeners := S (listeners this) |}, []).

Definition trace {A} (c : M A) (this : Manager) : list Action := snd (c this).
Definition after {A} (c : M A) (this : Manager) : Manager := snd (fst (c this)).
Definition result {A} (c : M A) (this : Manager) : A := fst (fst (c this)).

(** [data.conversation_id = this.conversation_id] *)
Definition stamp (cid : string) (data : IResponseMessage) : IResponseMessage :=
  {| type := type data; data := Manager.data data; msg_id := msg_id data;
     conversation_id := Some cid |}.

Definition skipTransformTypes : list string := ["thought"; "finished"].

(** [skipTransformTypes.includes(t)] *)
Definition includes (l : list string) (t : string) : bool :=
  existsb (String.eqb t) l.

Arguments includes : simpl never.

(** [e.message || JSON.stringify(e)]: [None] when the evaluation throws
    (reading [message] of null or undefined, or [JSON.stringify]
    throwing), otherwise the value, which is undefined when
    [JSON.stringify] returns undefined. The empty string is falsy. *)
Definition error_text (e : JsError) : option (option string) :=
  match e with
  | nullish => None
  | js_value (Some (String a s)) _ => Some (Some (String a s))
  | js_value _ (JsonText s) => Some (Some s)
  | js_value _ JsonUndefined => Some None
  | js_value _ JsonThrows => None
  end.

(** The surroundings of one [sendMessage] call: how the bootstrap promise
    and the promise of [super.sendMessage] settle, the events the
    subprocess delivers while the call is suspended, first on the bootstrap
    promise, then on what it waits for next, and the error the engine
    throws when the text of the rejection reason cannot be evaluated. *)
Record CallEnv : Type := {
  bootstrap : Settled;
  arrivals_while_bootstrapping : list IResponseMessage;
  arrivals_while_settling : list IResponseMessage;
  super_result : Settled;
  text_throws : JsError
}.

Section Collaborators.

(** [handlePreviewOpenEvent] of [../utils/previewUtils] and
    [transformMessage] of [@/common/chatLib] are not among the sources: the
    manager is modelled over any such pair of functions. *)
Variable handlePreviewOpenEvent : IResponseMessage → bool.
Variable transformMessage : IResponseMessage → option TMessage.

(** The listener registered in [init()]. It returns the event object as
    the call leaves it, since the assignment of [conversation_id] mutates
    the object the emitter hands to every listener. *)
Definition on_gemini_message (data : IResponseMessage) : M IResponseMessage :=
  (if String.eqb (type data) "finish" then assign_status finished else mret tt);;
  (if String.eqb (type data) "start" then assign_status running else mret tt);;
  if handlePreviewOpenEvent data then mret data
  else
    this ← get_this;
    let data := stamp (this_conversation_id this) data in
    (if negb (includes skipTransformTypes (type data))
     then match transformMessage data with
          | Some tMessage =>
              perform (addOrUpdateMessage (this_conversation_id this) tMessage "gemini")
          | None => mret tt
          end
     else mret tt);;
    perform (responseStream_emit data);;
    mret data.

(** An event on ['gemini.message'] reaches every registered listener in
    turn. *)
Fixpoint dispatch (n : nat) (data : IResponseMessage) : M unit :=
  match n with
  | 0 => mret tt
  | S n => data ← on_gemini_message data; dispatch n data
  end.

Definition deliver (data : IResponseMessage) : M unit :=
  this ← get_this; dispatch (listeners this) data.

Fixpoint deliver_all (events : list IResponseMessage) : M unit :=
  match events with
  | [] => mret tt
  | data :: events => deliver data;; deliver_all events
  end.

(** [this.emit('gemini.message', data)] *)
Definition emit (data : IResponseMessage) : M unit :=
  perform (emit_gemini_message data);; deliver data.

(** [init()] *)
Definition init : M unit :=
  perform super_init;; add_listener.

(** Modelled from the spec: [nextTickToLocalFinish(callback)] of
    [../message], which is not among the sources, runs [callback] once the
    local persistence requested so far has settled. The action
    [nextTickToLocalFinish] marks that moment and the callback follows it. *)
Definition nextTickToLocalFinish_then {A} (callback : M A) : M A :=
  perform nextTickToLocalFinish;; callback.

(** [sendMessage(data)]. The actions [await_bootstrap] and [returned] mark
    where the call suspends and settles; the deliveries are the listener
    runs that the surroundings interleave with it. In the [catch] handler
    the argument of [this.emit] is evaluated first: when that throws, the
    handler is left at once, nothing is emitted, [nextTickToLocalFinish] is
    not called, and the call rejects with the thrown error. *)
Definition sendMessage (env : CallEnv) (data : SendData) : M Settled :=
  this ← get_this;
  let message := {| id := send_msg_id data;
                    msg_type := "text";
                    position := "right";
                    msg_conversation_id := this_conversation_id this;
                    content := input data |} in
  perform (addMessage (this_conversation_id this) message);;
  assign_status pending;;
  perform await_bootstrap;;
  deliver_all (arrivals_while_bootstrapping env);;
  match bootstrap env with
  | Rejected e =>
      match error_text e with
      | Some text =>
          emit {| type := "error";
                  data := text;
                  msg_id := send_msg_id data;
                  conversation_id := None |};;
          deliver_all (arrivals_while_settling env);;
          nextTickToLocalFinish_then
            (perform (returned (Rejected e));; mret (Rejected e))
      | None =>
          perform (returned (Rejected (text_throws env)));;
          mret (Rejected (text_throws env))
      end
  | Fulfilled =>
      perform (super_sendMessage data);;
      deliver_all (arrivals_while_settling env);;
      perform (returned (super_result env));;
      mret (super_result env)
  end.

(** *** Reading traces *)

(** The events emitted on ['gemini.message'] by the manager itself. *)
Definition emitted (tr : list Action) : list IResponseMessage :=
  omap (λ a, match a with emit_gemini_message d => Some d | _ => None end) tr.

(** The events handed to the outbound bridge. *)
Definition bridged (tr : list Action) : list IResponseMessage :=
  omap (λ a, match a with responseStream_emit d => Some d | _ => None end) tr.

(** The inputs forwarded to the subprocess. *)
Definition forwarded (tr : list Action) : list SendData :=
  omap (λ a, match a with super_sendMessage d => Some d | _ => None end) tr.

(** The messages handed to the persistence layer, with the conversation
    they are filed under. *)
Definition persisted (tr : list Action) : list (string * TMessage) :=
  omap (λ a, match a with
             | addMessage c m => Some (c, m)
             | addOrUpdateMessage c m _ => Some (c, m)
             | _ => None
             end) tr.

(** The actions a listener can cause. *)
Definition listener_action (a : Action) : bool :=
  match a with
  | addOrUpdateMessage _ _ _ | responseStream_emit _ | status_assigned _ => true
  | _ => false
  end.

(** *** Running the monad *)

Lemma trace_bind {A B} (c : M A) (f : A → M B) this :
  trace (c ≫= f) this = trace c this ++ trace (f (result c this)) (after c this).
Proof.
  unfold trace, result, after, mbind, M_bind.
  destruct (c this) as [[a m1] t1]. simpl.
  by destruct (f a m1) as [[b m2] t2].
Qed.

Lemma after_bind {A B} (c : M A) (f : A → M B) this :
  after (c ≫= f) this = after (f (result c this)) (after c this).
Proof.
  unfold trace, result, after, mbind, M_bind.
  destruct (c this) as [[a m1] t1]. simpl.
  by destruct (f a m1) as [[b m2] t2].
Qed.

Lemma result_bind {A B} (c : M A) (f : A → M B) this :
  result (c ≫= f) this = result (f (result c this)) (after c this).
Proof.
  unfold trace, result, after, mbind, M_bind.
  destruct (c this) as [[a m1] t1]. simpl.
  by destruct (f a m1) as [[b m2] t2].
Qed.

Lemma trace_perform a this : trace (perform a) this = [a].
Proof. done. Qed.

Lemma after_perform a this : after (perform a) this = this.
Proof. done. Qed.

Lemma trace_ret {A} (x : A) this : trace (mret x) this = [].
Proof. done. Qed.

(** *** The listener *)

(** The status a listener leaves. *)
Definition status_after (data : IResponseMessage) (s : option Status)
  : option Status :=
  if String.eqb (type data) "start" then Some running
  else if String.eqb (type data) "finish" then Some finished
  else s.

Lemma on_gemini_message_after data this :
  after (on_gemini_message data) this
  = {| this_conversation_id := this_conversation_id this;
       status := status_after data (status this);
       listeners := listeners this |}.
Proof.
  unfold on_gemini_message, status_after, after, mbind, M_bind, mret, M_ret,
    assign_status, get_this, perform.
  destruct (String.eqb (type data) "finish") eqn:Hf;
    destruct (String.eqb (type data) "start") eqn:Hs; simpl.
  - apply String.eqb_eq in Hf, Hs. congruence.
  - destruct (handlePreviewOpenEvent data); simpl; [done|].
    destruct (includes _ _); simpl; [|destruct (transformMessage _)]; done.
  - destruct (handlePreviewOpenEvent data); simpl; [done|].
    destruct (includes _ _); simpl; [|destruct (transformMessage _)]; done.
  - destruct this. destruct (handlePreviewOpenEvent data); simpl; [done|].
    destruct (includes _ _); simpl; [|destruct (transformMessage _)]; done.
Qed.

Lemma on_gemini_message_result data this :
  result (on_gemini_message data) this
  = if handlePreviewOpenEvent data then data
    else stamp (this_conversation_id this) data.
Proof.
  unfold on_gemini_message, result, mbind, M_bind, mret, M_ret,
    assign_status, get_this, perform.
  destruct (String.eqb (type data) "finish");
    destruct (String.eqb (type data) "start"); simpl;
    destruct (handlePreviewOpenEvent data); simpl; try done;
    destruct (includes _ _); simpl; try done;
    destruct (transformMessage _); done.
Qed.

(** The calls a listener makes once the preview hook has let the event
    through. *)
Definition handled (cid : string) (data : IResponseMessage) : list Action :=
  let data := stamp cid data in
  (if includes skipTransformTypes (type data) then []
   else match transformMessage data with
        | Some tMessage => [addOrUpdateMessage cid tMessage "gemini"]
        | None => []
        end)
  ++ [responseStream_emit data].

Lemma on_gemini_message_trace data this :
  trace (on_gemini_message data) this
  = (if String.eqb (type data) "finish" then [status_assigned finished] else [])
    ++ (if String.eqb (type data) "start" then [status_assigned running] else [])
    ++ (if handlePreviewOpenEvent data then []
        else handled (this_conversation_id this) data).
Proof.
  unfold on_gemini_message, handled, trace, mbind, M_bind, mret, M_ret,
    assign_status, get_this, perform.
  destruct (String.eqb (type data) "finish");
    destruct (String.eqb (type data) "start"); simpl;
    destruct (handlePreviewOpenEvent data); simpl; try done;
    destruct (includes _ _); simpl; try done;
    destruct (transformMessage _); done.
Qed.

(** An action carries the conversation id [cid]: an event handed to the
    bridge has [conversation_id = cid]; a message is filed under [cid], and
    is either the user message stamped with [cid] or the transform of an
    event whose [conversation_id] is [cid]. *)
Definition carries (cid : string) (a : Action) : Prop :=
  match a with
  | responseStream_emit d => conversation_id d = Some cid
  | addOrUpdateMessage c t _ =>
      c = cid ∧ ∃ d, transformMessage d = Some t ∧ conversation_id d = Some cid
  | addMessage c m => c = cid ∧ msg_conversation_id m = cid
  | _ => True
  end.

Lemma handled_carries cid data : Forall (carries cid) (handled cid data).
Proof.
  unfold handled. apply Forall_app. split; [|by repeat constructor].
  destruct (includes _ _); [constructor|].
  destruct (transformMessage _) as [t|] eqn:Ht; repeat constructor.
  by exists (stamp cid data).
Qed.

Lemma handled_listener cid data :
  Forall (λ a, listener_action a = true) (handled cid data).
Proof.
  unfold handled. apply Forall_app. split; [|by repeat constructor].
  destruct (includes _ _); [constructor|].
  destruct (transformMessage _); by repeat constructor.
Qed.

(** What holds of every action of a run of listeners. *)
Definition listener_trace (cid : string) (tr : list Action) : Prop :=
  Forall (λ a, listener_action a = true ∧ carries cid a) tr.

Lemma listener_trace_app cid t1 t2 :
  listener_trace cid t1 → listener_trace cid t2 → listener_trace cid (t1 ++ t2).
Proof. intros H1 H2. apply Forall_app. by split. Qed.

Lemma on_gemini_message_listener_trace data this :
  listener_trace (this_conversation_id this) (trace (on_gemini_message data) this).
Proof.
  rewrite on_gemini_message_trace. repeat apply listener_trace_app.
  - destruct (String.eqb _ _); by repeat constructor.
  - destruct (String.eqb _ _); by repeat constructor.
  - destruct (handlePreviewOpenEvent data); [constructor|].
    apply Forall_and. split; [apply handled_listener | apply handled_carries].
Qed.

(** What a run of listeners leaves alone. *)
Definition same_identity (m1 m2 : Manager) : Prop :=
  this_conversation_id m1 = this_conversation_id m2
  ∧ listeners m1 = listeners m2.

Lemma dispatch_run n data this :
  same_identity (after (dispatch n data) this) this
  ∧ listener_trace (this_conversation_id this) (trace (dispatch n data) this).
Proof.
  revert data this. induction n as [|n IH]; intros data this; simpl.
  - split; [done | constructor].
  - rewrite after_bind, trace_bind.
    destruct (IH (result (on_gemini_message data) this)
                 (after (on_gemini_message data) this)) as [[Hc Hl] Ht].
    rewrite on_gemini_message_after in Hc, Hl, Ht |- *. simpl in Hc, Hl, Ht.
    split; [by split|].
    apply listener_trace_app; [apply on_gemini_message_listener_trace | done].
Qed.

Lemma deliver_run data this :
  same_identity (after (deliver data) this) this
  ∧ listener_trace (this_conversation_id this) (trace (deliver data) this).
Proof.
  unfold deliver. rewrite after_bind, trace_bind. simpl.
  apply (dispatch_run (listeners this) data this).
Qed.

Lemma deliver_all_run events this :
  same_identity (after (deliver_all events) this) this
  ∧ listener_trace (this_conversation_id this) (trace (deliver_all events) this).
Proof.
  revert this. induction events as [|data events IH]; intros this; simpl.
  - split; [done | constructor].
  - rewrite after_bind, trace_bind.
    destruct (deliver_run data this) as [[Hc Hl] Ht].
    destruct (IH (after (deliver data) this)) as [[Hc' Hl'] Ht'].
    rewrite Hc in Ht'. split; [split; congruence|].
    by apply listener_trace_app.
Qed.

Lemma listener_trace_emitted cid tr : listener_trace cid tr → emitted tr = [].
Proof.
  induction 1 as [|a tr [Ha _] _ IH]; [done|].
  destruct a; try discriminate; exact IH.
Qed.

Lemma listener_trace_forwarded cid tr : listener_trace cid tr → forwarded tr = [].
Proof.
  induction 1 as [|a tr [Ha _] _ IH]; [done|].
  destruct a; try discriminate; exact IH.
Qed.

Lemma listener_trace_carries cid tr : listener_trace cid tr → Forall (carries cid) tr.
Proof. intros H. eapply Forall_impl; [exact H|]. by intros a [_ Ha]. Qed.

(** *** [sendMessage], unfolded along its two continuations *)

(** The manager when the call suspends on the bootstrap promise. *)
Definition suspended (this : Manager) : Manager :=
  {| this_conversation_id := this_conversation_id this;
     status := Some pending;
     listeners := listeners this |}.

(** The user message [sendMessage] builds. *)
Definition user_message (data : SendData) (this : Manager) : TMessage :=
  {| id := send_msg_id data;
     msg_type := "text";
     position := "right";
     msg_conversation_id := this_conversation_id this;
     content := input data |}.

(** The error event of the [catch] handler, for the text [text]. *)
Definition error_event (data : SendData) (text : option string)
  : IResponseMessage :=
  {| type := "error";
     data := text;
     msg_id := send_msg_id data;
     conversation_id := None |}.

Lemma sendMessage_trace env data this :
  let resumed := after (deliver_all (arrivals_while_bootstrapping env))
                       (suspended this) in
  trace (sendMessage env data) this
  = addMessage (this_conversation_id this) (user_message data this)
    :: status_assigned pending
    :: await_bootstrap
    :: trace (deliver_all (arrivals_while_bootstrapping env)) (suspended this)
    ++ match bootstrap env with
       | Rejected e =>
           match error_text e with
           | Some text =>
               emit_gemini_message (error_event data text)
               :: trace (deliver (error_event data text)) resumed
               ++ trace (deliver_all (arrivals_while_settling env))
                        (after (deliver (error_event data text)) resumed)
               ++ [nextTickToLocalFinish; returned (Rejected e)]
           | None => [returned (Rejected (text_throws env))]
           end
       | Fulfilled =>
           super_sendMessage data
           :: trace (deliver_all (arrivals_while_settling env)) resumed
           ++ [returned (super_result env)]
       end.
Proof.
  intros resumed. unfold sendMessage.
  rewrite trace_bind. change (trace get_this this) with (@nil Action).
  change (result get_this this) with this. change (after get_this this) with this.
  rewrite trace_bind. change (trace (perform _) this) with [addMessage (this_conversation_id this) (user_message data this)].
  change (after (perform _) this) with this.
  rewrite trace_bind. change (trace (assign_status pending) this) with [status_assigned pending].
  change (after (assign_status pending) this) with (suspended this).
  rewrite trace_bind. change (trace (perform await_bootstrap) (suspended this)) with [await_bootstrap].
  change (after (perform await_bootstrap) (suspended this)) with (suspended this).
  rewrite trace_bind. fold resumed. simpl. do 4 f_equal.
  destruct (bootstrap env) as [|e].
  - rewrite !trace_bind, !trace_perform, !after_perform, trace_ret.
    by rewrite app_nil_r.
  - destruct (error_text e) as [text|].
    + fold (error_event data text). unfold emit, nextTickToLocalFinish_then.
      rewrite !trace_bind, !after_bind, !trace_perform, !after_perform, trace_ret.
      by rewrite <- !app_assoc.
    + by rewrite !trace_bind, !trace_perform, trace_ret.
Qed.

Lemma sendMessage_result env data this :
  result (sendMessage env data) this
  = match bootstrap env with
    | Rejected e => match error_text e with
                    | Some _ => Rejected e
                    | None => Rejected (text_throws env)
                    end
    | Fulfilled => super_result env
    end.
Proof.
  unfold sendMessage, nextTickToLocalFinish_then. rewrite !result_bind.
  destruct (bootstrap env) as [|e]; [by rewrite !result_bind|].
  destruct (error_text e); by rewrite !result_bind.
Qed.

Lemma includes_skipTransformTypes t :
  includes skipTransformTypes t = bool_decide (t = "thought" ∨ t = "finished").
Proof.
  unfold includes, skipTransformTypes. simpl existsb. rewrite orb_false_r.
  destruct (String.eqb_spec t "thought") as [H1|H1];
    destruct (String.eqb_spec t "finished") as [H2|H2]; simpl; symmetry.
  - apply bool_decide_eq_true. by left.
  - apply bool_decide_eq_true. by left.
  - apply bool_decide_eq_true. by right.
  - apply bool_decide_eq_false. by intros [|].
Qed.

Lemma bridged_app t1 t2 : bridged (t1 ++ t2) = bridged t1 ++ bridged t2.
Proof. apply omap_app. Qed.

Lemma persisted_app t1 t2 : persisted (t1 ++ t2) = persisted t1 ++ persisted t2.
Proof. apply omap_app. Qed.

Lemma emitted_app t1 t2 : emitted (t1 ++ t2) = emitted t1 ++ emitted t2.
Proof. apply omap_app. Qed.

Lemma forwarded_app t1 t2 : forwarded (t1 ++ t2) = forwarded t1 ++ forwarded t2.
Proof. apply omap_app. Qed.

Lemma emitted_cons a tr :
  emitted (a :: tr)
  = match a with emit_gemini_message d => [d] | _ => [] end ++ emitted tr.
Proof. by destruct a. Qed.

(** *** The claims about the manager *)


(** With one listener registered and an event the preview hook lets
    through, delivery is one run of the listener's calls. *)
Lemma deliver_one_listener data this :
  listeners this = 1 →
  handlePreviewOpenEvent data = false →
  String.eqb (type data) "finish" = false →
  String.eqb (type data) "start" = false →
  trace (deliver data) this = handled (this_conversation_id this) data.
Proof.
  intros Hl Hp Hf Hs. unfold deliver. rewrite trace_bind. simpl.
  change (result get_this this) with this. rewrite Hl. simpl.
  rewrite trace_bind, on_gemini_message_trace, Hp, Hf, Hs. simpl.
  by rewrite app_nil_r.
Qed.

(** An event the preview hook takes is neither persisted nor handed to
    the bridge; only the status assignment happens. *)
Lemma preview_event_consumed data this :
  handlePreviewOpenEvent data = true →
  bridged (trace (on_gemini_message data) this) = []
  ∧ persisted (trace (on_gemini_message data) this) = [].
Proof.
  intros Hp. rewrite on_gemini_message_trace, Hp.
  by destruct (String.eqb (type data) "finish"), (String.eqb (type data) "start").
Qed.

(** With the listener registered once, no other traffic and an error event
    the preview hook lets through, a rejected bootstrap puts exactly that
    event, stamped, on the outbound bridge, and persists its transform
    after the user message. *)
Lemma sendMessage_rejected_reaches_bridge e text accepted thrown data this :
  error_text e = Some text →
  listeners this = 1 →
  handlePreviewOpenEvent (error_event data text) = false →
  let env := {| bootstrap := Rejected e; arrivals_while_bootstrapping := [];
                arrivals_while_settling := []; super_result := accepted;
                text_throws := thrown |} in
  let cid := this_conversation_id this in
  let tr := trace (sendMessage env data) this in
  bridged tr = [stamp cid (error_event data text)]
  ∧ persisted tr
    = (cid, user_message data this)
      :: match transformMessage (stamp cid (error_event data text)) with
         | Some tMessage => [(cid, tMessage)]
         | None => []
         end.
Proof.
  intros Ht Hl Hp env cid tr. subst tr. rewrite sendMessage_trace. simpl.
  rewrite Ht.
  change (after (mret ()) (suspended this)) with (suspended this).
  rewrite (deliver_one_listener (error_event data text) (suspended this) Hl Hp)
    by done.
  simpl. unfold handled. fold cid.
  change (type (stamp cid (error_event data text))) with "error".
  change (includes skipTransformTypes "error") with false. simpl.
  rewrite !bridged_app, !persisted_app. simpl.
  by destruct (transformMessage (stamp cid (error_event data text))).
Qed.

(** What [sendMessage] does when the text of the rejection reason cannot
    be evaluated: the [catch] handler throws before it emits, so the call
    rejects with the thrown error as soon as the bootstrap has rejected. *)
Lemma sendMessage_unreadable_reason env data this e :
  bootstrap env = Rejected e →
  error_text e = None →
  trace (sendMessage env data) this
  = addMessage (this_conversation_id this) (user_message data this)
    :: status_assigned pending
    :: await_bootstrap
    :: trace (deliver_all (arrivals_while_bootstrapping env)) (suspended this)
    ++ [returned (Rejected (text_throws env))]
  ∧ result (sendMessage env data) this = Rejected (text_throws env).
Proof.
  intros Hb He. rewrite sendMessage_trace, sendMessage_result, Hb, He. done.
Qed.

Lemma listener_trace_no_sync cid tr :
  listener_trace cid tr → nextTickToLocalFinish ∉ tr.
Proof.
  intros Hl Hin. eapply Forall_forall in Hl as [Hl _]; [|exact Hin]. done.
Qed.

(** C2, where the code departs from it: when the bootstrap promise rejects
    with null or undefined, a [sendMessage] call emits no event at all on
    ['gemini.message'] (reading [e.message] throws before [this.emit] is
    called), never reaches the synchronisation point
    [nextTickToLocalFinish], and rejects at once with the error thrown in
    the handler instead of the bootstrap's reason; its trace is the user
    message, the status assignment, the wait and the listener runs of the
    events that arrived during the wait, then the rejection. *)
Theorem sendMessage_rejected_without_reason :
  ∀ (arrivals1 arrivals2 : list IResponseMessage) (accepted : Settled)
    (thrown : JsError) (data : SendData) (this : Manager),
    let env := {| bootstrap := Rejected nullish;
                  arrivals_while_bootstrapping := arrivals1;
                  arrivals_while_settling := arrivals2;
                  super_result := accepted;
                  text_throws := thrown |} in
    let tr := trace (sendMessage env data) this in
    result (sendMessage env data) this = Rejected thrown
    ∧ emitted tr = []
    ∧ (nextTickToLocalFinish ∉ tr)
    ∧ tr = addMessage (this_conversation_id this) (user_message data this)
           :: status_assigned pending
           :: await_bootstrap
           :: trace (deliver_all arrivals1) (suspended this)
           ++ [returned (Rejected thrown)].
Proof.
  intros arrivals1 arrivals2 accepted thrown data this env tr.
  destruct (sendMessage_unreadable_reason env data this nullish eq_refl eq_refl)
    as [Htr Hres].
  subst tr. rewrite Htr. simpl in *.
  destruct (deliver_all_run arrivals1 (suspended this)) as [_ H1]. simpl in H1.
  repeat split; try done.
  - repeat (rewrite emitted_cons || rewrite emitted_app).
    by rewrite (listener_trace_emitted _ _ H1).
  - rewrite !not_elem_of_cons, not_elem_of_app, !not_elem_of_cons.
    repeat split; try done. by eapply listener_trace_no_sync.
    apply not_elem_of_nil.
Qed.

(** X24: when the bootstrap promise rejects with a reason [e] whose text
    [e.message || JSON.stringify(e)] can be evaluated, a [sendMessage] call
    with message id [m] emits exactly one event on ['gemini.message'], the
    error event carrying that text and [msg_id = m]; everything the
    listeners do for that event comes before the synchronisation point
    [nextTickToLocalFinish], and the call rejects with [e] right after that
    point; nothing is forwarded to the subprocess. With the listener of
    [init()] registered and an event the preview hook lets through, what
    the listener does for the event is to persist its transform, if
    [transformMessage] yields one, and then to hand the stamped event to
    the outbound bridge. *)
Theorem sendMessage_bootstrap_rejected :
  ∀ (e : JsError) (text : option string)
    (arrivals1 arrivals2 : list IResponseMessage)
    (accepted : Settled) (thrown : JsError) (data : SendData) (this : Manager),
    error_text e = Some text →
    let env := {| bootstrap := Rejected e;
                  arrivals_while_bootstrapping := arrivals1;
                  arrivals_while_settling := arrivals2;
                  super_result := accepted;
                  text_throws := thrown |} in
    let event := {| type := "error";
                    data := text;
                    msg_id := send_msg_id data;
                    conversation_id := None |} in
    let cid := this_conversation_id this in
    let tr := trace (sendMessage env data) this in
    result (sendMessage env data) this = Rejected e
    ∧ emitted tr = [event]
    ∧ forwarded tr = []
    ∧ ∃ before at_emit during,
        tr = before
             ++ emit_gemini_message event
             :: trace (deliver event) at_emit
             ++ during
             ++ [nextTickToLocalFinish; returned (Rejected e)]
        ∧ same_identity at_emit this
        ∧ (nextTickToLocalFinish
             ∉ before ++ trace (deliver event) at_emit ++ during)
        ∧ (listeners this = 1 →
           handlePreviewOpenEvent event = false →
           trace (deliver event) at_emit
           = match transformMessage (stamp cid event) with
             | Some tMessage => [addOrUpdateMessage cid tMessage "gemini"]
             | None => []
             end
             ++ [responseStream_emit (stamp cid event)]).
Proof.
  intros e text arrivals1 arrivals2 accepted thrown data this Ht env event cid tr.
  split; [by rewrite sendMessage_result; simpl; rewrite Ht|].
  subst tr. rewrite sendMessage_trace. simpl. rewrite Ht.
  fold (error_event data text). change (error_event data text) with event.
  set (resumed := after (deliver_all arrivals1) (suspended this)).
  destruct (deliver_all_run arrivals1 (suspended this)) as [Hid H1].
  fold resumed in Hid.
  destruct (deliver_run event resumed) as [Hid2 H2].
  destruct (deliver_all_run arrivals2 (after (deliver event) resumed)) as [_ H3].
  assert (this_conversation_id resumed = this_conversation_id this) as Hcid
    by apply Hid.
  rewrite (proj1 Hid2), Hcid in H3. rewrite Hcid in H2. simpl in H1.
  split; [|split].
  - repeat (rewrite emitted_cons || rewrite emitted_app).
    by rewrite (listener_trace_emitted _ _ H1), (listener_trace_emitted _ _ H2),
      (listener_trace_emitted _ _ H3).
  - change (forwarded (?a :: ?b :: ?c :: ?l)) with (forwarded l).
    rewrite forwarded_app. simpl. rewrite !forwarded_app.
    by rewrite (listener_trace_forwarded _ _ H1), (listener_trace_forwarded _ _ H2),
      (listener_trace_forwarded _ _ H3).
  - exists (addMessage (this_conversation_id this) (user_message data this)
            :: status_assigned pending :: await_bootstrap
            :: trace (deliver_all arrivals1) (suspended this)),
      resumed, (trace (deliver_all arrivals2) (after (deliver event) resumed)).
    split; [done|]. split; [exact Hid|]. split.
    + rewrite !not_elem_of_app, !not_elem_of_cons. repeat split; try done;
        by eapply listener_trace_no_sync.
    + intros Hl Hp.
      rewrite (deliver_one_listener event resumed) by
        (done || (by rewrite (proj2 Hid))).
      unfold handled. rewrite Hcid. fold cid.
      change (type (stamp cid event)) with "error".
      by change (includes skipTransformTypes "error") with false.
Qed.

(** C4, as stated, for one event handled from one state: the status either
    stays, or moves from pending to running on ['start'], or from running
    to finished on ['finish']. *)
Definition stated_transition (data : IResponseMessage) (this : Manager) : Prop :=
  let s := status this in
  let s' := status (after (on_gemini_message data) this) in
  s' = s
  ∨ (type data = "start" ∧ s = Some pending ∧ s' = Some running)
  ∨ (type data = "finish" ∧ s = Some running ∧ s' = Some finished).

(** C4 (amended): a ['start'] event sets the status to running and a
    ['finish'] event sets it to finished, from every status, so in
    particular from pending to running and from running to finished; an
    event of any other type leaves the status as it is. The listener
    assigns no other status. *)
Theorem status_after_event :
  ∀ (data : IResponseMessage) (this : Manager),
    status (after (on_gemini_message data) this)
    = if String.eqb (type data) "start" then Some running
      else if String.eqb (type data) "finish" then Some finished
      else status this.
Proof. intros data this. by rewrite on_gemini_message_after. Qed.

(** C5: for an event the preview hook lets through, the listener hands the
    event (stamped) to the outbound bridge whatever its type; it persists
    nothing when the type is ['thought'] or ['finished'], and for every
    other type it persists exactly the message [transformMessage] yields,
    and nothing when [transformMessage] yields none. *)
Theorem transient_events_forwarded_not_persisted :
  ∀ (data : IResponseMessage) (this : Manager),
    handlePreviewOpenEvent data = false →
    let cid := this_conversation_id this in
    let tr := trace (on_gemini_message data) this in
    bridged tr = [stamp cid data]
    ∧ persisted tr
      = if bool_decide (type data = "thought" ∨ type data = "finished")
        then []
        else match transformMessage (stamp cid data) with
             | Some tMessage => [(cid, tMessage)]
             | None => []
             end.
Proof.
  intros data this Hp cid tr. subst tr.
  rewrite on_gemini_message_trace, Hp. unfold handled. fold cid.
  change (type (stamp cid data)) with (type data).
  rewrite <- includes_skipTransformTypes.
  rewrite !bridged_app, !persisted_app.
  destruct (String.eqb (type data) "finish"), (String.eqb (type data) "start");
    simpl; destruct (includes skipTransformTypes (type data)); simpl; try done;
    destruct (transformMessage (stamp cid data)); done.
Qed.

(** C6: whatever events the subprocess delivers and whatever
    [conversation_id] they arrive with, every event the manager hands to
    the outbound bridge has [conversation_id] equal to the manager's own,
    and every message it persists is filed under the manager's id and is
    the transform of an event so stamped; one listener run forwards the raw
    event with only its [conversation_id] overwritten. The same holds of
    the actions of [sendMessage], whose user message is stamped as well. *)
Theorem events_carry_own_conversation_id :
  ∀ (this : Manager),
    let cid := this_conversation_id this in
    (∀ events, Forall (carries cid) (trace (deliver_all events) this))
    ∧ (∀ data, Forall (λ d, d = {| type := type data; data := Manager.data data;
                                   msg_id := msg_id data;
                                   conversation_id := Some cid |})
                      (bridged (trace (on_gemini_message data) this)))
    ∧ (∀ env data, Forall (carries cid) (trace (sendMessage env data) this)).
Proof.
  intros this cid. split; [|split].
  - intros events. apply listener_trace_carries, deliver_all_run.
  - intros data. rewrite on_gemini_message_trace, !bridged_app.
    repeat apply Forall_app_2.
    + destruct (String.eqb _ _); constructor.
    + destruct (String.eqb _ _); constructor.
    + destruct (handlePreviewOpenEvent data); [constructor|].
      unfold handled. rewrite bridged_app. apply Forall_app_2.
      * destruct (includes _ _); [constructor|].
        destruct (transformMessage _); constructor.
      * by repeat constructor.
  - intros env data. rewrite sendMessage_trace.
    set (resumed := after (deliver_all (arrivals_while_bootstrapping env))
                          (suspended this)).
    destruct (deliver_all_run (arrivals_while_bootstrapping env) (suspended this))
      as [Hid H1]. fold resumed in Hid.
    assert (this_conversation_id resumed = cid) as Hcid by apply Hid.
    apply listener_trace_carries in H1. simpl in H1.
    repeat (apply Forall_cons; split; [done|]).
    apply Forall_app_2; [exact H1|].
    destruct (bootstrap env) as [|e].
    + apply Forall_cons. split; [done|]. apply Forall_app_2.
      * destruct (deliver_all_run (arrivals_while_settling env) resumed) as [_ H].
        rewrite Hcid in H. by apply listener_trace_carries.
      * by repeat constructor.
    + destruct (error_text e) as [text|]; [|by repeat constructor].
      apply Forall_cons. split; [done|].
      destruct (deliver_run (error_event data text) resumed) as [Hid2 H2].
      destruct (deliver_all_run (arrivals_while_settling env)
                  (after (deliver (error_event data text)) resumed)) as [_ H3].
      rewrite (proj1 Hid2), Hcid in H3. rewrite Hcid in H2.
      repeat apply Forall_app_2; try by apply listener_trace_carries.
      by repeat constructor.
Qed.

(** *** Streams of events and whole calls *)

Lemma deliver_single_listener data this :
  listeners this = 1 →
  trace (deliver data) this = trace (on_gemini_message data) this
  ∧ after (deliver data) this = after (on_gemini_message data) this.
Proof.
  intros Hl. unfold deliver. rewrite trace_bind, after_bind.
  change (result get_this this) with this. change (after get_this this) with this.
  change (trace get_this this) with (@nil Action). rewrite Hl. simpl dispatch.
  rewrite trace_bind, after_bind. split; [|done].
  by rewrite trace_ret, app_nil_r.
Qed.

(** What the listener persists for one event, if anything. *)
Definition persisted_for (cid : string) (data : IResponseMessage)
  : option (string * TMessage) :=
  if handlePreviewOpenEvent data then None
  else if includes skipTransformTypes (type data) then None
  else (λ tMessage, (cid, tMessage)) <$> transformMessage (stamp cid data).

Lemma on_gemini_message_projections data this :
  bridged (trace (on_gemini_message data) this)
  = (if handlePreviewOpenEvent data then []
     else [stamp (this_conversation_id this) data])
  ∧ persisted (trace (on_gemini_message data) this)
    = option_list (persisted_for (this_conversation_id this) data).
Proof.
  rewrite on_gemini_message_trace. unfold persisted_for, handled.
  rewrite !bridged_app, !persisted_app.
  change (type (stamp (this_conversation_id this) data)) with (type data).
  destruct (String.eqb (type data) "finish"), (String.eqb (type data) "start");
    simpl; destruct (handlePreviewOpenEvent data); simpl; try done;
    rewrite bridged_app, persisted_app;
    destruct (includes skipTransformTypes (type data)); simpl; try done;
    destruct (transformMessage _); done.
Qed.

(** X13: with the listener registered once, a stream of subprocess events
    reaches the outbound bridge in arrival order, each event the preview
    hook lets through exactly once and stamped, and the messages persisted
    are, in the same order, the transforms of the events that are neither
    taken by the preview hook nor of a transient type. *)
Theorem deliver_all_in_arrival_order :
  ∀ (events : list IResponseMessage) (this : Manager),
    listeners this = 1 →
    let cid := this_conversation_id this in
    let tr := trace (deliver_all events) this in
    bridged tr
    = stamp cid <$> List.filter (λ d, negb (handlePreviewOpenEvent d)) events
    ∧ persisted tr = omap (persisted_for cid) events.
Proof.
  intros events. induction events as [|d events IH]; intros this Hl; [done|].
  simpl. rewrite trace_bind, bridged_app, persisted_app.
  destruct (deliver_single_listener d this Hl) as [-> Hafter].
  destruct (on_gemini_message_projections d this) as [-> ->].
  change (result (deliver d) this) with tt. rewrite Hafter.
  assert (listeners (after (on_gemini_message d) this) = 1) as Hl'
    by by rewrite on_gemini_message_after.
  destruct (IH _ Hl') as [Hb Hp]. simpl in Hb, Hp.
  rewrite on_gemini_message_after in Hb, Hp. simpl in Hb, Hp.
  rewrite on_gemini_message_after. simpl. rewrite Hb, Hp. split.
  - by destruct (handlePreviewOpenEvent d).
  - by destruct (persisted_for (this_conversation_id this) d).
Qed.

(** X14: handling subprocess events never forwards anything to the
    subprocess, never emits on ['gemini.message'], never calls
    [addMessage], and leaves the conversation id and the registered
    listeners as they are, whatever the events and the number of
    listeners. *)
Theorem deliver_all_stays_local :
  ∀ (events : list IResponseMessage) (this : Manager),
    let tr := trace (deliver_all events) this in
    let this' := after (deliver_all events) this in
    forwarded tr = []
    ∧ emitted tr = []
    ∧ Forall (λ a, match a with
                   | addOrUpdateMessage _ _ backend => backend = "gemini"
                   | responseStream_emit _ | status_assigned _ => True
                   | _ => False
                   end) tr
    ∧ this_conversation_id this' = this_conversation_id this
    ∧ listeners this' = listeners this.
Proof.
  intros events this. simpl.
  destruct (deliver_all_run events this) as [[Hc Hl] Ht].
  split; [by eapply listener_trace_forwarded|].
  split; [by eapply listener_trace_emitted|].
  split; [|done].
  clear Hc Hl Ht. revert this.
  assert (∀ data this, Forall (λ a, match a with
                   | addOrUpdateMessage _ _ backend => backend = "gemini"
                   | responseStream_emit _ | status_assigned _ => True
                   | _ => False
                   end) (trace (on_gemini_message data) this)) as Hone.
  { intros data this. rewrite on_gemini_message_trace. unfold handled.
    repeat apply Forall_app_2.
    - destruct (String.eqb _ _); by repeat constructor.
    - destruct (String.eqb _ _); by repeat constructor.
    - destruct (handlePreviewOpenEvent data); [constructor|].
      apply Forall_app_2; [|by repeat constructor].
      destruct (includes _ _); [constructor|].
      destruct (transformMessage _); by repeat constructor. }
  assert (∀ n data this, Forall (λ a, match a with
                   | addOrUpdateMessage _ _ backend => backend = "gemini"
                   | responseStream_emit _ | status_assigned _ => True
                   | _ => False
                   end) (trace (dispatch n data) this)) as Hmany.
  { induction n as [|n IHn]; intros data this; simpl; [constructor|].
    rewrite trace_bind. apply Forall_app_2; [apply Hone | apply IHn]. }
  induction events as [|d events IH]; intros this; simpl; [constructor|].
  rewrite trace_bind. apply Forall_app_2; [|apply IH].
  unfold deliver. rewrite trace_bind. apply Forall_app_2; [constructor|].
  apply Hmany.
Qed.


(** The user messages a trace hands to [addMessage]. *)
Definition user_messages (tr : list Action) : list (string * TMessage) :=
  omap (λ a, match a with addMessage c m => Some (c, m) | _ => None end) tr.

Lemma user_messages_app t1 t2 :
  user_messages (t1 ++ t2) = user_messages t1 ++ user_messages t2.
Proof. apply omap_app. Qed.

Lemma listener_trace_user_messages cid tr :
  listener_trace cid tr → user_messages tr = [].
Proof.
  induction 1 as [|a tr [Ha _] _ IH]; [done|].
  destruct a; try discriminate; exact IH.
Qed.

Lemma user_messages_cons a tr :
  user_messages (a :: tr)
  = match a with addMessage c m => [(c, m)] | _ => [] end ++ user_messages tr.
Proof. by destruct a. Qed.

(** X15: every [sendMessage] call, whether the bootstrap fulfils or
    rejects and whatever arrives meanwhile, hands exactly one user message
    to [addMessage] (no listener run adds another), and emits on
    ['gemini.message'] only in the [catch] handler: one error event when
    the bootstrap has rejected and the text of the reason can be
    evaluated, and nothing otherwise. *)
Theorem sendMessage_one_user_message :
  ∀ (env : CallEnv) (data : SendData) (this : Manager),
    let tr := trace (sendMessage env data) this in
    user_messages tr = [(this_conversation_id this, user_message data this)]
    ∧ emitted tr
      = match bootstrap env with
        | Rejected e =>
            match error_text e with
            | Some text => [{| type := "error"; data := text;
                               msg_id := send_msg_id data;
                               conversation_id := None |}]
            | None => []
            end
        | Fulfilled => []
        end.
Proof.
  intros env data this. simpl.
  rewrite sendMessage_trace.
  set (resumed := after (deliver_all (arrivals_while_bootstrapping env))
                        (suspended this)).
  destruct (deliver_all_run (arrivals_while_bootstrapping env) (suspended this))
    as [_ H1].
  destruct (bootstrap env) as [|e]; [|destruct (error_text e) as [text|]].
  - destruct (deliver_all_run (arrivals_while_settling env) resumed) as [_ H2].
    split.
    + repeat (rewrite user_messages_cons || rewrite user_messages_app).
      by rewrite (listener_trace_user_messages _ _ H1),
        (listener_trace_user_messages _ _ H2).
    + repeat (rewrite emitted_cons || rewrite emitted_app).
      by rewrite (listener_trace_emitted _ _ H1),
        (listener_trace_emitted _ _ H2).
  - destruct (deliver_run (error_event data text) resumed) as [_ H2].
    destruct (deliver_all_run (arrivals_while_settling env)
                (after (deliver (error_event data text)) resumed)) as [_ H3].
    split.
    + repeat (rewrite user_messages_cons || rewrite user_messages_app).
      by rewrite (listener_trace_user_messages _ _ H1),
        (listener_trace_user_messages _ _ H2),
        (listener_trace_user_messages _ _ H3).
    + repeat (rewrite emitted_cons || rewrite emitted_app).
      by rewrite (listener_trace_emitted _ _ H1),
        (listener_trace_emitted _ _ H2),
        (listener_trace_emitted _ _ H3).
  - split.
    + repeat (rewrite user_messages_cons || rewrite user_messages_app).
      by rewrite (listener_trace_user_messages _ _ H1).
    + repeat (rewrite emitted_cons || rewrite emitted_app).
      by rewrite (listener_trace_emitted _ _ H1).
Qed.

(** An event that is neither a start nor a finish. *)
Definition keeps_status (data : IResponseMessage) : Prop :=
  type data ≠ "start" ∧ type data ≠ "finish".

Lemma status_after_keeps data s : keeps_status data → status_after data s = s.
Proof.
  intros [Hs Hf]. unfold status_after.
  destruct (String.eqb_spec (type data) "start"); [done|].
  by destruct (String.eqb_spec (type data) "finish").
Qed.

Lemma dispatch_keeps_status n data this :
  keeps_status data → status (after (dispatch n data) this) = status this.
Proof.
  revert data this. induction n as [|n IH]; intros data this Hk; [done|].
  simpl. rewrite after_bind, IH.
  - rewrite on_gemini_message_after. simpl. by apply status_after_keeps.
  - rewrite on_gemini_message_result.
    by destruct (handlePreviewOpenEvent data).
Qed.

Lemma deliver_all_keeps_status events this :
  Forall keeps_status events →
  status (after (deliver_all events) this) = status this.
Proof.
  intros H. revert this. induction H as [|d events Hd _ IH]; intros this; [done|].
  simpl. rewrite after_bind, IH. unfold deliver. rewrite after_bind.
  by apply dispatch_keeps_status.
Qed.

Lemma sendMessage_after env data this :
  let resumed := after (deliver_all (arrivals_while_bootstrapping env))
                       (suspended this) in
  after (sendMessage env data) this
  = match bootstrap env with
    | Rejected e =>
        match error_text e with
        | Some text =>
            after (deliver_all (arrivals_while_settling env))
                  (after (deliver (error_event data text)) resumed)
        | None => resumed
        end
    | Fulfilled => after (deliver_all (arrivals_while_settling env)) resumed
    end.
Proof.
  intros resumed. unfold sendMessage, nextTickToLocalFinish_then, emit.
  rewrite !after_bind.
  change (after get_this this) with this.
  change (after (perform ?a) ?m) with m.
  change (after (assign_status pending) this) with (suspended this).
  fold resumed.
  destruct (bootstrap env) as [|e]; [rewrite !after_bind; done|].
  destruct (error_text e); rewrite !after_bind; done.
Qed.

(** X16: [sendMessage] itself only ever sets the status to pending: when
    no start or finish event arrives during the call, the status is pending
    when the call settles, also when the bootstrap has rejected (the error
    event it emits does not move the status, and nothing sets an error
    status). *)
Theorem sendMessage_leaves_pending :
  ∀ (env : CallEnv) (data : SendData) (this : Manager),
    Forall keeps_status
           (arrivals_while_bootstrapping env ++ arrivals_while_settling env) →
    status (after (sendMessage env data) this) = Some pending.
Proof.
  intros env data this [H1 H2]%Forall_app. rewrite sendMessage_after.
  destruct (bootstrap env) as [|e].
  - by rewrite !deliver_all_keeps_status.
  - destruct (error_text e) as [text|];
      [|by rewrite deliver_all_keeps_status].
    rewrite deliver_all_keeps_status by done.
    unfold deliver. rewrite after_bind.
    rewrite dispatch_keeps_status by (split; discriminate).
    change (after get_this ?m) with m.
    by rewrite deliver_all_keeps_status.
Qed.


(** Where the input of a call is forwarded, by the outcome of the
    bootstrap. *)
Lemma sendMessage_forwarded env data this :
  forwarded (trace (sendMessage env data) this)
  = match bootstrap env with
    | Fulfilled => [data]
    | Rejected _ => []
    end.
Proof.
  rewrite sendMessage_trace.
  set (resumed := after (deliver_all (arrivals_while_bootstrapping env))
                        (suspended this)).
  destruct (deliver_all_run (arrivals_while_bootstrapping env) (suspended this))
    as [_ H1].
  apply listener_trace_forwarded in H1.
  change (forwarded (?a :: ?b :: ?c :: ?l)) with (forwarded l).
  rewrite forwarded_app, H1. simpl.
  destruct (bootstrap env) as [|e]; simpl.
  - destruct (deliver_all_run (arrivals_while_settling env) resumed) as [_ H2].
    apply listener_trace_forwarded in H2. by rewrite forwarded_app, H2.
  - destruct (error_text e) as [text|]; [|done].
    destruct (deliver_run (error_event data text) resumed) as [_ H2].
    destruct (deliver_all_run (arrivals_while_settling env)
                (after (deliver (error_event data text)) resumed)) as [_ H3].
    apply listener_trace_forwarded in H2, H3. simpl.
    by rewrite !forwarded_app, H2, H3.
Qed.


End Collaborators.

(** *** Running the model on examples *)

(** Stand-ins for the two collaborators, used only to run the model: the
    preview hook takes the events of type ['preview_open'], the transform
    turns content and error events into messages and drops the rest. *)
Definition sample_preview (data : IResponseMessage) : bool :=
  String.eqb (type data) "preview_open".

Definition sample_transform (data : IResponseMessage) : option TMessage :=
  if String.eqb (type data) "content" || String.eqb (type data) "error"
  then Some {| id := msg_id data;
               msg_type := if String.eqb (type data) "error" then "tips" else "text";
               position := "left";
               msg_conversation_id := default EmptyString (conversation_id data);
               content := default EmptyString data.(Manager.data) |}
  else None.

Definition manager_c1 (s : option Status) : Manager :=
  {| this_conversation_id := "c1"; status := s; listeners := 1 |}.

(** The manager of conversation [c1] once [init()] has run. *)
Example init_registers_listener :
  after init {| this_conversation_id := "c1"; status := None; listeners := 0 |}
  = manager_c1 None.
Proof. reflexivity. Qed.

Definition event (t payload : string) : IResponseMessage :=
  {| type := t; data := Some payload; msg_id := "m0";
     conversation_id := Some "other" |}.

Definition boom : JsError := js_value (Some "no auth") (JsonText "{}").

(** The error an engine throws when [message] is read from undefined. *)
Definition type_error : JsError :=
  js_value (Some "Cannot read properties of undefined (reading 'message')")
           (JsonText "{}").

Definition hello : SendData := {| input := "hello"; send_msg_id := "m1" |}.

(** A call during which nothing arrives, on a bootstrap promise that has
    rejected with [e]. *)
Definition rejected_with (e : JsError) : CallEnv :=
  {| bootstrap := Rejected e; arrivals_while_bootstrapping := [];
     arrivals_while_settling := []; super_result := Fulfilled;
     text_throws := type_error |}.

(** A rejected bootstrap, no other traffic: the whole trace of the call. *)
Example sendMessage_rejected_trace :
  sendMessage sample_preview sample_transform
    (rejected_with boom) hello (manager_c1 None)
  = (Rejected boom,
     manager_c1 (Some pending),
     [ addMessage "c1" {| id := "m1"; msg_type := "text"; position := "right";
                          msg_conversation_id := "c1"; content := "hello" |};
       status_assigned pending;
       await_bootstrap;
       emit_gemini_message {| type := "error"; data := Some "no auth";
                              msg_id := "m1"; conversation_id := None |};
       addOrUpdateMessage "c1"
         {| id := "m1"; msg_type := "tips"; position := "left";
            msg_conversation_id := "c1"; content := "no auth" |} "gemini";
       responseStream_emit {| type := "error"; data := Some "no auth";
                              msg_id := "m1"; conversation_id := Some "c1" |};
       nextTickToLocalFinish;
       returned (Rejected boom) ]).
Proof. reflexivity. Qed.

(** A bootstrap rejected without a reason: nothing is emitted, nothing is
    persisted for the failure, and the call rejects with the error thrown
    in the handler. *)
Example sendMessage_rejected_without_reason_trace :
  sendMessage sample_preview sample_transform
    (rejected_with nullish) hello (manager_c1 None)
  = (Rejected type_error,
     manager_c1 (Some pending),
     [ addMessage "c1" {| id := "m1"; msg_type := "text"; position := "right";
                          msg_conversation_id := "c1"; content := "hello" |};
       status_assigned pending;
       await_bootstrap;
       returned (Rejected type_error) ]).
Proof. reflexivity. Qed.

(** The text of a rejection reason, by the kind of reason. *)
Example error_text_by_reason :
  error_text boom = Some (Some "no auth")
  ∧ error_text (js_value None (JsonText "{}")) = Some (Some "{}")
  ∧ error_text (js_value (Some EmptyString) (JsonText "{}")) = Some (Some "{}")
  ∧ error_text (js_value None JsonUndefined) = Some None
  ∧ error_text (js_value None JsonThrows) = None
  ∧ error_text nullish = None.
Proof. repeat split. Qed.

(** X24 on the error [boom], with the listener of [init()] registered. *)
Lemma sendMessage_bootstrap_rejected_witness :
  error_text boom = Some (Some "no auth")
  ∧ result (sendMessage sample_preview sample_transform
              (rejected_with boom) hello) (manager_c1 None)
    = Rejected boom
  ∧ emitted (trace (sendMessage sample_preview sample_transform
                      (rejected_with boom) hello) (manager_c1 None))
    = [error_event hello (Some "no auth")].
Proof.
  split; [reflexivity|].
  pose proof (sendMessage_bootstrap_rejected sample_preview sample_transform
                boom (Some "no auth") [] [] Fulfilled type_error hello
                (manager_c1 None) eq_refl) as (Hresult & Hemitted & _).
  split; [exact Hresult | exact Hemitted].
Defined.

(** A fulfilled bootstrap: the subprocess starts while the call waits, the
    input is forwarded, the reply streams in and the turn finishes. *)
Example sendMessage_fulfilled_trace :
  sendMessage sample_preview sample_transform
    {| bootstrap := Fulfilled;
       arrivals_while_bootstrapping := [];
       arrivals_while_settling :=
         [event "start" "s"; event "thought" "hm"; event "content" "hi";
          event "finish" "f"];
       super_result := Fulfilled;
       text_throws := type_error |}
    {| input := "hello"; send_msg_id := "m1" |} (manager_c1 None)
  = (Fulfilled,
     manager_c1 (Some finished),
     [ addMessage "c1" {| id := "m1"; msg_type := "text"; position := "right";
                          msg_conversation_id := "c1"; content := "hello" |};
       status_assigned pending;
       await_bootstrap;
       super_sendMessage {| input := "hello"; send_msg_id := "m1" |};
       status_assigned running;
       responseStream_emit {| type := "start"; data := Some "s"; msg_id := "m0";
                              conversation_id := Some "c1" |};
       responseStream_emit {| type := "thought"; data := Some "hm"; msg_id := "m0";
                              conversation_id := Some "c1" |};
       addOrUpdateMessage "c1"
         {| id := "m0"; msg_type := "text"; position := "left";
            msg_conversation_id := "c1"; content := "hi" |} "gemini";
       responseStream_emit {| type := "content"; data := Some "hi"; msg_id := "m0";
                              conversation_id := Some "c1" |};
       status_assigned finished;
       responseStream_emit {| type := "finish"; data := Some "f"; msg_id := "m0";
                              conversation_id := Some "c1" |};
       returned Fulfilled ]).
Proof. reflexivity. Qed.

(** C4, as stated, fails: a ['start'] event that arrives when the status is
    finished (the start of the next turn, when its message was sent before
    the previous turn finished) moves the status to running, which is none
    of the stated transitions. *)
Lemma start_from_finished_refutes :
  status (after (on_gemini_message sample_preview sample_transform
                   (event "start" "s")) (manager_c1 (Some finished)))
  = Some running
  ∧ ¬ stated_transition sample_preview sample_transform
        (event "start" "s") (manager_c1 (Some finished)).
Proof.
  split; [reflexivity|].
  unfold stated_transition. vm_compute.
  intros [H | [(_ & H & _) | (H & _)]]; discriminate H.
Qed.

(** The same from the undefined (idle) status: ['finish'] sets finished. *)
Example finish_from_idle :
  status (after (on_gemini_message sample_preview sample_transform
                   (event "finish" "f")) (manager_c1 None))
  = Some finished.
Proof. reflexivity. Qed.

(** C5 at a ['thought'] event. *)
Lemma transient_events_witness :
  sample_preview (event "thought" "hm") = false
  ∧ bridged (trace (on_gemini_message sample_preview sample_transform
                      (event "thought" "hm")) (manager_c1 (Some running)))
    = [stamp "c1" (event "thought" "hm")]
  ∧ persisted (trace (on_gemini_message sample_preview sample_transform
                        (event "thought" "hm")) (manager_c1 (Some running)))
    = [].
Proof.
  split; [reflexivity|].
  apply (transient_events_forwarded_not_persisted sample_preview sample_transform
           (event "thought" "hm") (manager_c1 (Some running))).
  reflexivity.
Defined.

(** X13 on a stream with a preview event and a transient event. *)
Lemma deliver_all_in_arrival_order_witness :
  listeners (manager_c1 None) = 1
  ∧ bridged (trace (deliver_all sample_preview sample_transform
                      [event "start" "s"; event "preview_open" "p";
                       event "thought" "hm"; event "content" "hi"])
                   (manager_c1 None))
    = [stamp "c1" (event "start" "s"); stamp "c1" (event "thought" "hm");
       stamp "c1" (event "content" "hi")]
  ∧ persisted (trace (deliver_all sample_preview sample_transform
                        [event "start" "s"; event "preview_open" "p";
                         event "thought" "hm"; event "content" "hi"])
                     (manager_c1 None))
    = [("c1", {| id := "m0"; msg_type := "text"; position := "left";
                 msg_conversation_id := "c1"; content := "hi" |})].
Proof.
  split; [reflexivity|].
  apply (deliver_all_in_arrival_order sample_preview sample_transform
           [event "start" "s"; event "preview_open" "p";
            event "thought" "hm"; event "content" "hi"] (manager_c1 None)).
  reflexivity.
Defined.

(** X16 on a rejected bootstrap during which a thought arrives. *)
Lemma sendMessage_leaves_pending_witness :
  status (after (sendMessage sample_preview sample_transform
                   {| bootstrap := Rejected boom;
                      arrivals_while_bootstrapping := [event "thought" "hm"];
                      arrivals_while_settling := [];
                      super_result := Fulfilled;
                      text_throws := type_error |}
                   {| input := "hello"; send_msg_id := "m1" |})
                (manager_c1 (Some finished)))
  = Some pending.
Proof.
  apply (sendMessage_leaves_pending sample_preview sample_transform
           {| bootstrap := Rejected boom;
              arrivals_while_bootstrapping := [event "thought" "hm"];
              arrivals_while_settling := [];
              super_result := Fulfilled;
              text_throws := type_error |}).
  simpl. repeat constructor; discriminate.
Defined.


End Manager.

(* ===================================================================== *)
(** ** The model-capability helper: regular expressions                   *)
(* ===================================================================== *)

Module RegExp.

(** The fragment of JavaScript regular expressions the capability tables
    use. [Bol] is [^], [Any] is [.], [Class] is a bracket expression. *)
Inductive Regex : Type :=
| Fail
| Eps
| Bol
| Any
| Chr (c : ascii)
| Class (cs : list ascii)
| Seq (r1 r2 : Regex)
| Alt (r1 r2 : Regex)
| Star (r : Regex).

(** A literal run of characters. *)
Fixpoint Lit (s : string) : Regex :=
  match s with
  | EmptyString => Eps
  | String c s' => Seq (Chr c) (Lit s')
  end.

(** [r?] and [r+] *)
Definition Opt (r : Regex) : Regex := Alt r Eps.
Definition Plus (r : Regex) : Regex := Seq r (Star r).

(** [r1|r2|...] *)
Fixpoint alts (l : list Regex) : Regex :=
  match l with
  | [] => Fail
  | [r] => r
  | r :: l => Alt r (alts l)
  end.

(** [/source/] with or without the [i] flag. *)
Record RegExp : Type := {
  source : Regex;
  ignoreCase : bool
}.

(** ASCII lower case, the part of [toLowerCase] that concerns the
    characters of the tables. *)
Definition lower (c : ascii) : ascii :=
  let n := nat_of_ascii c in
  if Nat.leb 65 n && Nat.leb n 90 then ascii_of_nat (n + 32) else c.

Definition same_char (i : bool) (a b : ascii) : bool :=
  if i then Ascii.eqb (lower a) (lower b) else Ascii.eqb a b.

(** [.] does not match a line terminator. *)
Definition line_terminator (c : ascii) : bool :=
  Ascii.eqb c "010"%char || Ascii.eqb c "013"%char.

(** Whether [r] matches the empty string at the current position;
    [at_start] tells whether that position is the start of the input. *)
Fixpoint nullable (at_start : bool) (r : Regex) : bool :=
  match r with
  | Fail => false
  | Eps => true
  | Bol => at_start
  | Any => false
  | Chr _ => false
  | Class _ => false
  | Seq r1 r2 => nullable at_start r1 && nullable at_start r2
  | Alt r1 r2 => nullable at_start r1 || nullable at_start r2
  | Star _ => true
  end.

(** What remains of [r] to match once the character [c] has been read. *)
Fixpoint deriv (i at_start : bool) (c : ascii) (r : Regex) : Regex :=
  match r with
  | Fail => Fail
  | Eps => Fail
  | Bol => Fail
  | Any => if line_terminator c then Fail else Eps
  | Chr a => if same_char i a c then Eps else Fail
  | Class cs => if existsb (λ a, same_char i a c) cs then Eps else Fail
  | Seq r1 r2 =>
      let left := Seq (deriv i at_start c r1) r2 in
      if nullable at_start r1 then Alt left (deriv i at_start c r2) else left
  | Alt r1 r2 => Alt (deriv i at_start c r1) (deriv i at_start c r2)
  | Star r1 => Seq (deriv i at_start c r1) (Star r1)
  end.

(** Some prefix of [w] matches [r]. *)
Fixpoint matches_prefix (i at_start : bool) (r : Regex) (w : list ascii) : bool :=
  nullable at_start r
  || match w with
     | [] => false
     | c :: w' => matches_prefix i false (deriv i at_start c r) w'
     end.

(** Some factor of [w] matches [r]. *)
Fixpoint search (i at_start : bool) (r : Regex) (w : list ascii) : bool :=
  matches_prefix i at_start r w
  || match w with
     | [] => false
     | _ :: w' => search i false r w'
     end.

(** [re.test(s)] for a regular expression without the [g] and [y] flags. *)
Definition test (re : RegExp) (s : string) : bool :=
  search (ignoreCase re) true (source re) (list_ascii_of_string s).

Example test_substring :
  test {| source := alts [Lit "4o"; Lit "claude-3"]; ignoreCase := true |} "gpt-4o-mini"
  = true.
Proof. reflexivity. Qed.

Example test_anchor :
  test {| source := Seq Bol (Lit "text-"); ignoreCase := true |} "my-text-model"
  = false
  ∧ test {| source := Seq Bol (Lit "text-"); ignoreCase := true |} "Text-model"
    = true.
Proof. split; reflexivity. Qed.

Example test_wildcard :
  test {| source := Seq (Lit "gemini-") (Seq (Star Any) (Lit "-pro"));
          ignoreCase := true |} "gemini-2.5-pro"
  = true.
Proof. reflexivity. Qed.

(** *** What matching means

    [Matches i b r w]: the word [w] matches [r] when read from a position
    that is the start of the input iff [b]. *)

(** Whether the position after reading [w] is still the start. *)
Definition still_start (b : bool) (w : list ascii) : bool :=
  match w with
  | [] => b
  | _ => false
  end.

Inductive Matches (i : bool) : bool → Regex → list ascii → Prop :=
| M_Eps b : Matches i b Eps []
| M_Bol : Matches i true Bol []
| M_Any b c : line_terminator c = false → Matches i b Any [c]
| M_Chr b a c : same_char i a c = true → Matches i b (Chr a) [c]
| M_Class b cs c :
    existsb (λ a, same_char i a c) cs = true → Matches i b (Class cs) [c]
| M_Seq b r1 r2 w1 w2 :
    Matches i b r1 w1 → Matches i (still_start b w1) r2 w2 →
    Matches i b (Seq r1 r2) (w1 ++ w2)
| M_AltL b r1 r2 w : Matches i b r1 w → Matches i b (Alt r1 r2) w
| M_AltR b r1 r2 w : Matches i b r2 w → Matches i b (Alt r1 r2) w
| M_Star0 b r : Matches i b (Star r) []
| M_StarS b r w1 w2 :
    Matches i b r w1 → Matches i (still_start b w1) (Star r) w2 →
    Matches i b (Star r) (w1 ++ w2).

Lemma Matches_nil_nullable i b r w :
  Matches i b r w → w = [] → nullable b r = true.
Proof.
  induction 1 as [ | | | | | b r1 r2 w1 w2 _ IH1 _ IH2 | b r1 r2 w _ IH
                   | b r1 r2 w _ IH | | ]; intros Hw; simpl; try done.
  - apply app_eq_nil in Hw as [-> ->]. simpl in IH2. by rewrite IH1, IH2.
  - by rewrite IH.
  - rewrite IH by done. apply orb_true_r.
Qed.

Lemma nullable_Matches i b r : nullable b r = true → Matches i b r [].
Proof.
  induction r as [ | | | | | | r1 IH1 r2 IH2 | r1 IH1 r2 IH2 | r IH];
    simpl; intros H; try done.
  - constructor.
  - subst b. constructor.
  - apply andb_true_iff in H as [H1 H2].
    apply (M_Seq i b r1 r2 [] []); auto.
  - apply orb_true_iff in H as [H|H]; [apply M_AltL | apply M_AltR]; auto.
  - constructor.
Qed.

Lemma deriv_sound i b c r w :
  Matches i false (deriv i b c r) w → Matches i b r (c :: w).
Proof.
  revert b w.
  induction r as [ | | | | a | cs | r1 IH1 r2 IH2 | r1 IH1 r2 IH2 | r IH];
    intros b w; simpl; intros H.
  - inversion H.
  - inversion H.
  - inversion H.
  - destruct (line_terminator c) eqn:Hc; inversion H; subst. by constructor.
  - destruct (same_char i a c) eqn:Hc; inversion H; subst. by constructor.
  - destruct (existsb _ cs) eqn:Hc; inversion H; subst. by constructor.
  - assert (∀ w, Matches i false (Seq (deriv i b c r1) r2) w →
                 Matches i b (Seq r1 r2) (c :: w)) as Hleft.
    { intros w' H'. inversion H' as [ | | | | | b' r1' r2' w1 w2 Hm1 Hm2 | | | | ];
        subst.
      apply (M_Seq i b r1 r2 (c :: w1) w2); [by apply IH1|].
      simpl. by destruct w1. }
    destruct (nullable b r1) eqn:Hn; [|by apply Hleft].
    inversion H; subst; [by apply Hleft|].
    apply (M_Seq i b r1 r2 [] (c :: w)); [by apply nullable_Matches|].
    by apply IH2.
  - inversion H; subst; [apply M_AltL | apply M_AltR]; auto.
  - inversion H as [ | | | | | b' r1' r2' w1 w2 Hm1 Hm2 | | | | ]; subst.
    apply (M_StarS i b r (c :: w1) w2); [by apply IH|].
    simpl. by destruct w1.
Qed.

Lemma deriv_complete i b r w :
  Matches i b r w → ∀ c w', w = c :: w' → Matches i false (deriv i b c r) w'.
Proof.
  induction 1 as [ | | b a Ha | b a a' Ha | b cs a Ha
                   | b r1 r2 w1 w2 H1 IH1 H2 IH2 | b r1 r2 w _ IH
                   | b r1 r2 w _ IH | | b r w1 w2 H1 IH1 H2 IH2 ];
    intros c w' Hw; simpl; try done.
  - injection Hw as <- <-. rewrite Ha. constructor.
  - injection Hw as <- <-. rewrite Ha. constructor.
  - injection Hw as <- <-. rewrite Ha. constructor.
  - destruct w1 as [|c1 w1]; simpl in *.
    + rewrite (Matches_nil_nullable _ _ _ _ H1 eq_refl).
      apply M_AltR. by apply IH2.
    + injection Hw as -> <-.
      assert (Matches i false (Seq (deriv i b c r1) r2) (w1 ++ w2)) as Hs.
      { apply M_Seq; [by apply IH1|]. by destruct w1. }
      destruct (nullable b r1); [by apply M_AltL | done].
  - apply M_AltL. by apply IH.
  - apply M_AltR. by apply IH.
  - destruct w1 as [|c1 w1]; simpl in *.
    + by apply IH2.
    + injection Hw as -> <-.
      apply M_Seq; [by apply IH1|]. by destruct w1.
Qed.

Lemma matches_prefix_spec i b r w :
  matches_prefix i b r w = true ↔ ∃ w1 w2, w = w1 ++ w2 ∧ Matches i b r w1.
Proof.
  revert b r. induction w as [|c w IH]; intros b r; simpl.
  - rewrite orb_false_r. split.
    + intros H. exists [], []. split; [done|]. by apply nullable_Matches.
    + intros (w1 & w2 & Hw & Hm). symmetry in Hw.
      apply app_eq_nil in Hw as [-> ->].
      by apply (Matches_nil_nullable i b r []).
  - rewrite orb_true_iff, IH. split.
    + intros [Hn | (w1 & w2 & -> & Hm)].
      * exists [], (c :: w). split; [done|]. by apply nullable_Matches.
      * exists (c :: w1), w2. split; [done|]. by apply deriv_sound.
    + intros (w1 & w2 & Hw & Hm). destruct w1 as [|c1 w1]; simpl in Hw.
      * left. by apply (Matches_nil_nullable i b r []).
      * injection Hw as <- ->. right. exists w1, w2. split; [done|].
        by apply (deriv_complete i b r (c :: w1)).
Qed.

Lemma search_spec i b r w :
  search i b r w = true
  ↔ ∃ w0 w1 w2, w = w0 ++ w1 ++ w2 ∧ Matches i (still_start b w0) r w1.
Proof.
  revert b. induction w as [|c w IH]; intros b.
  - change (search i b r []) with (matches_prefix i b r [] || false).
    rewrite orb_false_r, matches_prefix_spec. split.
    + intros (w1 & w2 & Hw & Hm). by exists [], w1, w2.
    + intros (w0 & w1 & w2 & Hw & Hm). symmetry in Hw.
      apply app_eq_nil in Hw as [-> Hw]. by exists w1, w2.
  - change (search i b r (c :: w))
      with (matches_prefix i b r (c :: w) || search i false r w).
    rewrite orb_true_iff, matches_prefix_spec, IH. split.
    + intros [(w1 & w2 & Hw & Hm) | (w0 & w1 & w2 & -> & Hm)].
      * by exists [], w1, w2.
      * exists (c :: w0), w1, w2. split; [done|]. simpl. by destruct w0.
    + intros (w0 & w1 & w2 & Hw & Hm). destruct w0 as [|c0 w0]; simpl in *.
      * left. by exists w1, w2.
      * injection Hw as <- ->. right. exists w0, w1, w2. split; [done|].
        by destruct w0.
Qed.

(** [test] holds exactly when some factor of the input matches, the
    anchor [^] holding at the first position only. *)
Lemma test_spec re s :
  test re s = true
  ↔ ∃ w0 w1 w2, list_ascii_of_string s = w0 ++ w1 ++ w2
                ∧ Matches (ignoreCase re) (still_start true w0) (source re) w1.
Proof. apply search_spec. Qed.

(** An optional suffix does not change what [test] finds: a factor matches
    [r(?:q)?] exactly when a factor matches [r]. *)
Lemma test_optional_suffix i r q s :
  test {| source := Seq r (Opt q); ignoreCase := i |} s
  = test {| source := r; ignoreCase := i |} s.
Proof.
  apply eq_true_iff_eq. rewrite !test_spec. simpl. split.
  - intros (w0 & w1 & w2 & Hs & Hm).
    inversion Hm as [ | | | | | b r1 r2 u v Hr Hq | | | | ]; subst.
    exists w0, u, (v ++ w2). split; [|done].
    by rewrite Hs, <- !app_assoc.
  - intros (w0 & w1 & w2 & Hs & Hm). exists w0, w1, w2. split; [done|].
    rewrite <- (app_nil_r w1). apply M_Seq; [done|].
    apply M_AltR. constructor.
Qed.


End RegExp.

(* ===================================================================== *)
(** ** The model-capability helper: three-tier resolution and its cache   *)
(* ===================================================================== *)

Module Capabilities.
Import Storage RegExp.

(** [/.../i] *)
Definition re_i (r : Regex) : RegExp := {| source := r; ignoreCase := true |}.

Definition CAPABILITY_PATTERNS (t : ModelType) : RegExp :=
  match t with
  | text =>
      re_i (alts [Lit "gpt"; Lit "claude"; Lit "gemini"; Lit "qwen"; Lit "llama";
                  Lit "mistral"; Lit "deepseek"])
  | vision =>
      re_i (alts [Lit "4o"; Lit "claude-3";
                  Seq (Lit "gemini-") (Seq (Star Any) (Lit "-pro"));
                  Seq (Lit "gemini-") (Seq (Star Any) (Lit "-flash"));
                  Lit "gemini-2.0"; Lit "qwen-vl"; Lit "llava"; Lit "vision"])
  | function_calling =>
      re_i (alts [Lit "gpt-4"; Lit "claude-3"; Lit "gemini"; Lit "qwen";
                  Lit "deepseek"])
  | web_search => re_i (alts [Lit "search"; Lit "perplexity"])
  | reasoning => re_i (alts [Lit "o1-"; Lit "reasoning"; Lit "think"])
  | embedding =>
      re_i (alts [Seq Bol (Lit "text-"); Lit "embed"; Lit "bge-"; Lit "e5-";
                  Lit "LLM2Vec"; Lit "retrieval"; Lit "uae-"; Lit "gte-";
                  Lit "jina-clip"; Lit "jina-embeddings"; Lit "voyage-"])
  | rerank =>
      re_i (alts [Lit "rerank"; Lit "re-rank"; Lit "re-ranker"; Lit "re-ranking";
                  Lit "retrieval"; Lit "retriever"])
  | excludeFromPrimary =>
      re_i (alts [Lit "dall-e"; Lit "flux"; Lit "stable-diffusion";
                  Lit "midjourney"; Lit "flash-image"; Lit "embed"; Lit "rerank"])
  end.

(** The bracket expression written [[\\w-]] in the regular expression
    literals: a backslash, the letter w and the hyphen. *)
Definition backslash_w_hyphen : list ascii := ["\"; "w"; "-"]%char.

Definition CAPABILITY_EXCLUSIONS (t : ModelType) : list RegExp :=
  match t with
  | text => []
  | vision =>
      [re_i (alts [Lit "embed"; Lit "rerank"; Lit "dall-e"; Lit "flux";
                   Lit "stable-diffusion"])]
  | function_calling =>
      [re_i (Seq (Lit "aqa")
                 (Opt (Seq (Chr "-") (Plus (Class backslash_w_hyphen)))));
       re_i (Seq (Lit "imagen")
                 (Opt (Seq (Chr "-") (Plus (Class backslash_w_hyphen)))));
       re_i (Lit "o1-mini");
       re_i (Lit "o1-preview");
       re_i (Seq (Lit "gemini-1")
                 (Opt (Seq (Chr "\") (Seq Any (Plus (Class backslash_w_hyphen))))));
       re_i (Lit "dall-e");
       re_i (Lit "embed");
       re_i (Lit "rerank")]
  | web_search => []
  | reasoning => []
  | embedding => []
  | rerank => []
  | excludeFromPrimary => []
  end.

(** [PROVIDER_CAPABILITY_RULES[provider]?.[type]]: [None] is the absence of
    a rule object, the inner [None] is a [null] entry. *)
Definition PROVIDER_CAPABILITY_RULES (provider : string)
  : option (ModelType → option bool) :=
  if String.eqb provider "anthropic" then
    Some (λ t, match t with
               | text => Some true
               | vision => Some true
               | function_calling => Some true
               | web_search => Some false
               | reasoning => Some false
               | embedding => Some false
               | rerank => Some false
               | excludeFromPrimary => Some false
               end)
  else if String.eqb provider "deepseek" then
    Some (λ t, match t with
               | text => Some true
               | vision => None
               | function_calling => Some true
               | web_search => Some false
               | reasoning => None
               | embedding => Some false
               | rerank => Some false
               | excludeFromPrimary => Some false
               end)
  else None.

(** [s.toLowerCase()], on ASCII letters *)
Fixpoint toLowerCase (s : string) : string :=
  match s with
  | EmptyString => EmptyString
  | String c s' => String (lower c) (toLowerCase s')
  end.

(** [[a-z0-9./-]] *)
Definition base_char (c : ascii) : bool :=
  let n := nat_of_ascii c in
  (Nat.leb 97 n && Nat.leb n 122) || (Nat.leb 48 n && Nat.leb n 57)
  || Ascii.eqb c "." || Ascii.eqb c "/" || Ascii.eqb c "-".

(** [.replace(/[^a-z0-9./-]/g, '-')] *)
Fixpoint replace_other_chars (s : string) : string :=
  match s with
  | EmptyString => EmptyString
  | String c s' =>
      String (if base_char c then c else "-"%char) (replace_other_chars s')
  end.

(** [.replace(/-+/g, '-')] *)
Fixpoint collapse_hyphens (s : string) : string :=
  match s with
  | EmptyString => EmptyString
  | String c s' =>
      if Ascii.eqb c "-"
      then match s' with
           | String c' _ =>
               if Ascii.eqb c' "-" then collapse_hyphens s'
               else String c (collapse_hyphens s')
           | EmptyString => String c EmptyString
           end
      else String c (collapse_hyphens s')
  end.

(** The [-$] alternative of the last replacement. *)
Fixpoint strip_trailing_hyphen (s : string) : string :=
  match s with
  | EmptyString => EmptyString
  | String c EmptyString => if Ascii.eqb c "-" then EmptyString else s
  | String c s' => String c (strip_trailing_hyphen s')
  end.

(** [.replace(/^-|-$/g, '')] *)
Definition strip_hyphens (s : string) : string :=
  match s with
  | String c s' =>
      if Ascii.eqb c "-" then strip_trailing_hyphen s'
      else strip_trailing_hyphen s
  | EmptyString => EmptyString
  end.

Definition getBaseModelName (modelName : string) : string :=
  strip_hyphens (collapse_hyphens (replace_other_chars (toLowerCase modelName))).

Example getBaseModelName_sample :
  getBaseModelName " GPT 4o (Preview)__" = "gpt-4o-preview".
Proof. reflexivity. Qed.

(** [model.capabilities?.find((cap) => cap.type === type)?.isUserSelected] *)
Definition getUserSelectedCapability (model : IProvider) (type : ModelType)
  : option bool :=
  match capabilities model with
  | None => None
  | Some caps =>
      match List.find (λ cap, ModelType_eqb (cap_type cap) type) caps with
      | Some capability => isUserSelected capability
      | None => None
      end
  end.

(** [rules?.[type] ?? null]; [None] is [null]. *)
Definition getProviderCapabilityRule (provider : string) (type : ModelType)
  : option bool :=
  match PROVIDER_CAPABILITY_RULES (toLowerCase provider) with
  | Some rules => rules type
  | None => None
  end.

(** The callback of [modelNames.some]. *)
Definition name_supports (type : ModelType) (modelName : string) : bool :=
  let baseModelName := getBaseModelName modelName in
  let isExcluded := existsb (λ excludePattern, test excludePattern baseModelName)
                            (CAPABILITY_EXCLUSIONS type) in
  if isExcluded then false
  else test (CAPABILITY_PATTERNS type) baseModelName.

(** The double quote, and a quoted JSON string without characters to
    escape. *)
Definition dquote : string := String "034"%char EmptyString.

Definition quoted (s : string) : string := dquote +:+ s +:+ dquote.

(** [JSON.stringify] of one capability: an absent [isUserSelected] is left
    out. *)
Definition stringify_capability (cap : ModelCapability) : string :=
  "{" +:+ quoted "type" +:+ ":" +:+ quoted (ModelType_str (cap_type cap))
  +:+ match isUserSelected cap with
      | Some true => "," +:+ quoted "isUserSelected" +:+ ":true"
      | Some false => "," +:+ quoted "isUserSelected" +:+ ":false"
      | None => EmptyString
      end
  +:+ "}".

Fixpoint join_comma (l : list string) : string :=
  match l with
  | [] => EmptyString
  | [x] => x
  | x :: l => x +:+ "," +:+ join_comma l
  end.

(** [JSON.stringify(model.capabilities)] *)
Definition JSON_stringify (caps : list ModelCapability) : string :=
  "[" +:+ join_comma (stringify_capability <$> caps) +:+ "]".

Definition cacheKey (model : IProvider) (type : ModelType) : string :=
  let capabilitiesHash :=
    match capabilities model with
    | Some caps => JSON_stringify caps
    | None => EmptyString
    end in
  id model +:+ "-" +:+ platform model +:+ "-" +:+ ModelType_str type
  +:+ "-" +:+ capabilitiesHash.

(** [hasModelCapability], with the module-level [modelCapabilitiesCache]
    passed in and out. A [Map] distinguishes a key bound to [undefined]
    from an absent key, hence the two layers of [option]. *)
Definition hasModelCapability (model : IProvider) (type : ModelType)
           (modelCapabilitiesCache : gmap string (option bool))
  : option bool * gmap string (option bool) :=
  let cacheKey := cacheKey model type in
  match modelCapabilitiesCache !! cacheKey with
  | Some cached => (cached, modelCapabilitiesCache)
  | None =>
      let result :=
        match getUserSelectedCapability model type with
        | Some userSelected => Some userSelected
        | None =>
            match getProviderCapabilityRule (platform model) type with
            | Some providerRule => Some providerRule
            | None =>
                let hasSupport := existsb (name_supports type) (Storage.model model) in
                if hasSupport then Some true else None
            end
        end in
      (result, <[cacheKey := result]> modelCapabilitiesCache)
  end.

Definition hasSpecificModelCapability (platformModel : IProvider)
           (modelName : string) (type : ModelType) : option bool :=
  let baseModelName := getBaseModelName modelName in
  let isExcluded := existsb (λ excludePattern, test excludePattern baseModelName)
                            (CAPABILITY_EXCLUSIONS type) in
  if isExcluded then Some false
  else if test (CAPABILITY_PATTERNS type) baseModelName then Some true else None.

Definition clearModelCapabilitiesCache (_ : gmap string (option bool))
  : gmap string (option bool) := ∅.

(** The three tiers without a cache, as the specification words them: the
    capability the user selected, else the rule of the provider, else the
    regular expressions over the model names (blacklist before whitelist),
    which yield true or undefined. *)
Definition three_tier_resolution (model : IProvider) (type : ModelType)
  : option bool :=
  let by_user := getUserSelectedCapability model type in
  let by_provider := getProviderCapabilityRule (platform model) type in
  let by_names :=
    if existsb (λ n, negb (existsb (λ re, test re (getBaseModelName n))
                                   (CAPABILITY_EXCLUSIONS type))
                     && test (CAPABILITY_PATTERNS type) (getBaseModelName n))
               (Storage.model model)
    then Some true else None in
  match by_user, by_provider with
  | Some b, _ => Some b
  | None, Some b => Some b
  | None, None => by_names
  end.

(** *** The cache against the resolution *)

Lemma name_supports_words type n :
  name_supports type n
  = negb (existsb (λ re, test re (getBaseModelName n)) (CAPABILITY_EXCLUSIONS type))
    && test (CAPABILITY_PATTERNS type) (getBaseModelName n).
Proof. unfold name_supports. by destruct (existsb _ _). Qed.

(** On a miss the call computes the three tiers and stores the answer. *)
Lemma hasModelCapability_miss model type cache :
  cache !! cacheKey model type = None →
  hasModelCapability model type cache
  = (three_tier_resolution model type,
     <[cacheKey model type := three_tier_resolution model type]> cache).
Proof.
  intros Hmiss. unfold hasModelCapability, three_tier_resolution. rewrite Hmiss.
  assert (existsb (name_supports type) (Storage.model model)
          = existsb (λ n, negb (existsb (λ re, test re (getBaseModelName n))
                                        (CAPABILITY_EXCLUSIONS type))
                          && test (CAPABILITY_PATTERNS type) (getBaseModelName n))
                    (Storage.model model)) as ->.
  { induction (Storage.model model) as [|n l IH]; [done|].
    simpl. by rewrite name_supports_words, IH. }
  destruct (getUserSelectedCapability model type); [done|].
  by destruct (getProviderCapabilityRule (platform model) type).
Qed.

(** On a hit the call returns what is stored and leaves the cache. *)
Lemma hasModelCapability_hit model type cache v :
  cache !! cacheKey model type = Some v →
  hasModelCapability model type cache = (v, cache).
Proof. intros Hhit. unfold hasModelCapability. by rewrite Hhit. Qed.

(** Two consecutive calls with the same model and type agree, from any
    cache. *)
Lemma hasModelCapability_twice model type cache :
  let first := hasModelCapability model type cache in
  hasModelCapability model type (snd first) = (fst first, snd first).
Proof.
  simpl. destruct (cache !! cacheKey model type) as [v|] eqn:Hc.
  - rewrite (hasModelCapability_hit _ _ _ _ Hc). simpl.
    by apply hasModelCapability_hit.
  - rewrite (hasModelCapability_miss _ _ _ Hc). simpl.
    apply hasModelCapability_hit. by rewrite lookup_insert_eq.
Qed.

(** From an empty cache (at start, or after
    [clearModelCapabilitiesCache]) the call is the resolution. *)
Lemma hasModelCapability_fresh model type cache :
  fst (hasModelCapability model type (clearModelCapabilitiesCache cache))
  = three_tier_resolution model type.
Proof.
  unfold clearModelCapabilitiesCache.
  by rewrite hasModelCapability_miss by apply lookup_empty.
Qed.

(** One provider before and after its model list is edited: the id, the
    platform and the capabilities stay, the model names change. *)
Definition provider_with (models : list string) : IProvider :=
  {| id := "p1"; platform := "custom"; name := "Custom";
     baseUrl := "https://llm.example/v1"; apiKey := "k";
     model := models; capabilities := None; contextLimit := None |}.

Example resolution_of_gpt_4o :
  three_tier_resolution (provider_with ["gpt-4o"]) vision = Some true.
Proof. vm_compute. reflexivity. Qed.

Example resolution_of_embedding_model :
  three_tier_resolution (provider_with ["text-embedding-3-small"]) vision = None.
Proof. vm_compute. reflexivity. Qed.

Example resolution_by_provider_rule :
  three_tier_resolution
    {| id := "p2"; platform := "Anthropic"; name := "A"; baseUrl := EmptyString;
       apiKey := EmptyString; model := ["claude-3-opus"]; capabilities := None;
       contextLimit := None |} web_search
  = Some false.
Proof. vm_compute. reflexivity. Qed.

Example resolution_by_user :
  three_tier_resolution
    {| id := "p2"; platform := "anthropic"; name := "A"; baseUrl := EmptyString;
       apiKey := EmptyString; model := ["claude-3-opus"];
       capabilities := Some [ {| cap_type := web_search; isUserSelected := Some true |} ];
       contextLimit := None |} web_search
  = Some true.
Proof. vm_compute. reflexivity. Qed.

Example cacheKey_sample :
  cacheKey {| id := "p2"; platform := "anthropic"; name := "A"; baseUrl := EmptyString;
              apiKey := EmptyString; model := [];
              capabilities := Some [ {| cap_type := vision; isUserSelected := Some true |};
                                     {| cap_type := text; isUserSelected := None |} ];
              contextLimit := None |} vision
  = "p2-anthropic-vision-[{" +:+ quoted "type" +:+ ":" +:+ quoted "vision" +:+ ","
    +:+ quoted "isUserSelected" +:+ ":true},{" +:+ quoted "type" +:+ ":"
    +:+ quoted "text" +:+ "}]".
Proof. vm_compute. reflexivity. Qed.

(** C10 fails on the code: the cache key leaves out the model names, on
    which the third tier depends. After a call for a provider listing
    [gpt-4o], a call for the same provider with its model list edited to an
    embedding model answers from the cache with true, while the three-tier
    resolution of that provider is undefined (and is what the call returns
    from an empty cache). *)
Theorem hasModelCapability_stale_after_model_edit :
  let before := provider_with ["gpt-4o"] in
  let edited := provider_with ["text-embedding-3-small"] in
  let cache := snd (hasModelCapability before vision ∅) in
  fst (hasModelCapability before vision ∅) = Some true
  ∧ fst (hasModelCapability edited vision cache) = Some true
  ∧ three_tier_resolution edited vision = None
  ∧ fst (hasModelCapability edited vision ∅) = None.
Proof. vm_compute. repeat split; reflexivity. Qed.

(** *** The shape of base model names *)

Definition is_hyphen (c : ascii) : bool := Ascii.eqb c "-".

(** Every character of [s] satisfies [P]. *)
Fixpoint all_chars (P : ascii → bool) (s : string) : bool :=
  match s with
  | EmptyString => true
  | String c s' => P c && all_chars P s'
  end.

(** [s] starts with a hyphen. *)
Definition leading_hyphen (s : string) : bool :=
  match s with
  | String c _ => is_hyphen c
  | EmptyString => false
  end.

(** [s] ends with a hyphen. *)
Fixpoint trailing_hyphen (s : string) : bool :=
  match s with
  | EmptyString => false
  | String c EmptyString => is_hyphen c
  | String _ s' => trailing_hyphen s'
  end.

(** No two hyphens in a row. *)
Fixpoint single_hyphens (s : string) : bool :=
  match s with
  | EmptyString => true
  | String c s' => negb (is_hyphen c && leading_hyphen s') && single_hyphens s'
  end.

(** A name in the form [getBaseModelName] produces: lower-case letters,
    digits, dots, slashes and single hyphens, none of them at either end. *)
Definition base_form (s : string) : bool :=
  all_chars base_char s && single_hyphens s
  && negb (leading_hyphen s) && negb (trailing_hyphen s).

Lemma base_char_lower c : base_char c = true → lower c = c.
Proof.
  destruct c as [[] [] [] [] [] [] [] []]; vm_compute; congruence.
Qed.

Lemma base_char_hyphen c : is_hyphen c = true → base_char c = true.
Proof.
  unfold is_hyphen. intros H. apply Ascii.eqb_eq in H. by subst c.
Qed.

Lemma toLowerCase_base s : all_chars base_char s = true → toLowerCase s = s.
Proof.
  induction s as [|c s IH]; simpl; [done|].
  intros [Hc Hs]%andb_true_iff. by rewrite base_char_lower, IH.
Qed.

Lemma replace_other_chars_all_base s :
  all_chars base_char (replace_other_chars s) = true.
Proof.
  induction s as [|c s IH]; simpl; [done|].
  rewrite IH, andb_true_r. by destruct (base_char c) eqn:Hc.
Qed.

Lemma replace_other_chars_base s :
  all_chars base_char s = true → replace_other_chars s = s.
Proof.
  induction s as [|c s IH]; simpl; [done|].
  intros [Hc Hs]%andb_true_iff. by rewrite Hc, IH.
Qed.

(** The two equations of [collapse_hyphens] on a non-empty string. *)
Lemma collapse_hyphens_cons c s :
  collapse_hyphens (String c s)
  = if is_hyphen c && leading_hyphen s then collapse_hyphens s
    else String c (collapse_hyphens s).
Proof.
  unfold is_hyphen. destruct s as [|c' t]; simpl.
  - by destruct (Ascii.eqb c "-").
  - unfold is_hyphen. by destruct (Ascii.eqb c "-"), (Ascii.eqb c' "-").
Qed.

Lemma collapse_hyphens_leading s :
  leading_hyphen (collapse_hyphens s) = leading_hyphen s.
Proof.
  induction s as [|c s IH]; [done|].
  rewrite collapse_hyphens_cons.
  destruct (is_hyphen c) eqn:Hc; simpl; [|by rewrite Hc].
  destruct (leading_hyphen s) eqn:Hs; simpl; [|by rewrite Hc].
  by rewrite IH, Hc.
Qed.

Lemma collapse_hyphens_all P s :
  all_chars P s = true → all_chars P (collapse_hyphens s) = true.
Proof.
  induction s as [|c s IH]; [done|].
  rewrite collapse_hyphens_cons. simpl. intros [Hc Hs]%andb_true_iff.
  destruct (is_hyphen c && leading_hyphen s); simpl; [by apply IH|].
  by rewrite Hc, IH.
Qed.

Lemma collapse_hyphens_single s : single_hyphens (collapse_hyphens s) = true.
Proof.
  induction s as [|c s IH]; [done|].
  rewrite collapse_hyphens_cons.
  destruct (is_hyphen c && leading_hyphen s) eqn:Hcs; [done|].
  simpl. by rewrite collapse_hyphens_leading, Hcs, IH.
Qed.

Lemma collapse_hyphens_fixed s :
  single_hyphens s = true → collapse_hyphens s = s.
Proof.
  induction s as [|c s IH]; [done|].
  rewrite collapse_hyphens_cons. simpl. intros [Hc Hs]%andb_true_iff.
  apply negb_true_iff in Hc. by rewrite Hc, IH.
Qed.

(** The equation of [strip_trailing_hyphen] on a non-empty string. *)
Lemma strip_trailing_hyphen_cons c s :
  strip_trailing_hyphen (String c s)
  = match s with
    | EmptyString => if is_hyphen c then EmptyString else String c EmptyString
    | _ => String c (strip_trailing_hyphen s)
    end.
Proof. by destruct s. Qed.

Lemma strip_trailing_hyphen_all P s :
  all_chars P s = true → all_chars P (strip_trailing_hyphen s) = true.
Proof.
  induction s as [|c s IH]; [done|].
  rewrite strip_trailing_hyphen_cons. simpl. intros [Hc Hs]%andb_true_iff.
  destruct s as [|c' t].
  - destruct (is_hyphen c); simpl; [done | by rewrite Hc].
  - change (all_chars P (String c (strip_trailing_hyphen (String c' t))))
      with (P c && all_chars P (strip_trailing_hyphen (String c' t))).
    by rewrite Hc, IH.
Qed.

Lemma strip_trailing_hyphen_leading s :
  leading_hyphen s = false → leading_hyphen (strip_trailing_hyphen s) = false.
Proof.
  destruct s as [|c s]; [done|]. rewrite strip_trailing_hyphen_cons. simpl.
  intros Hc. destruct s; [by rewrite Hc | done].
Qed.

Lemma strip_trailing_hyphen_single s :
  single_hyphens s = true → single_hyphens (strip_trailing_hyphen s) = true.
Proof.
  induction s as [|c s IH]; [done|].
  rewrite strip_trailing_hyphen_cons. simpl. intros [Hc Hs]%andb_true_iff.
  destruct s as [|c' t].
  - destruct (is_hyphen c); simpl; [done|]. by rewrite andb_false_r.
  - change (single_hyphens (String c (strip_trailing_hyphen (String c' t))))
      with (negb (is_hyphen c && leading_hyphen (strip_trailing_hyphen (String c' t)))
            && single_hyphens (strip_trailing_hyphen (String c' t))).
    rewrite IH by done. rewrite andb_true_r.
    destruct (is_hyphen c) eqn:Hh; [|done]. simpl in Hc.
    apply negb_true_iff in Hc.
    rewrite strip_trailing_hyphen_leading; [done|]. exact Hc.
Qed.

Lemma strip_trailing_hyphen_trailing s :
  single_hyphens s = true → trailing_hyphen (strip_trailing_hyphen s) = false.
Proof.
  induction s as [|c s IH]; [done|].
  rewrite strip_trailing_hyphen_cons. simpl. intros [Hc Hs]%andb_true_iff.
  destruct s as [|c' t].
  - by destruct (is_hyphen c) eqn:Hh; simpl; [|rewrite Hh].
  - specialize (IH Hs).
    destruct (strip_trailing_hyphen (String c' t)) as [|d u] eqn:Hstrip.
    + (* the tail was a single hyphen *)
      simpl. destruct t as [|c'' t'].
      * rewrite strip_trailing_hyphen_cons in Hstrip.
        destruct (is_hyphen c') eqn:Hh'; [|done].
        simpl in Hc. rewrite Hh', andb_true_r in Hc.
        by apply negb_true_iff in Hc.
      * rewrite strip_trailing_hyphen_cons in Hstrip. done.
    + exact IH.
Qed.

Lemma strip_trailing_hyphen_fixed s :
  trailing_hyphen s = false → strip_trailing_hyphen s = s.
Proof.
  induction s as [|c s IH]; [done|].
  rewrite strip_trailing_hyphen_cons. destruct s as [|c' t]; simpl.
  - by intros ->.
  - intros H. f_equal. by apply IH.
Qed.

Lemma getBaseModelName_in_base_form modelName :
  base_form (getBaseModelName modelName) = true.
Proof.
  unfold getBaseModelName, base_form.
  set (s := collapse_hyphens (replace_other_chars (toLowerCase modelName))).
  assert (all_chars base_char s = true) as Hall
    by apply collapse_hyphens_all, replace_other_chars_all_base.
  assert (single_hyphens s = true) as Hsingle by apply collapse_hyphens_single.
  destruct s as [|c t]; [done|]. unfold strip_hyphens.
  simpl in Hall, Hsingle.
  apply andb_true_iff in Hall as [Hc Ht], Hsingle as [Hct Hst].
  fold (is_hyphen c). destruct (is_hyphen c) eqn:Hh.
  - simpl in Hct. apply negb_true_iff in Hct.
    rewrite strip_trailing_hyphen_all, strip_trailing_hyphen_single,
      strip_trailing_hyphen_leading, strip_trailing_hyphen_trailing; done.
  - assert (all_chars base_char (String c t) = true) as Hall'
      by (simpl; by rewrite Hc, Ht).
    assert (single_hyphens (String c t) = true) as Hsingle'
      by (simpl; by rewrite Hh, Hst).
    rewrite strip_trailing_hyphen_all, strip_trailing_hyphen_single,
      strip_trailing_hyphen_leading, strip_trailing_hyphen_trailing; done.
Qed.

Lemma getBaseModelName_fixed s : base_form s = true → getBaseModelName s = s.
Proof.
  unfold base_form, getBaseModelName.
  intros [[[Hall Hsingle]%andb_true_iff Hlead%negb_true_iff]%andb_true_iff
            Htrail%negb_true_iff]%andb_true_iff.
  rewrite toLowerCase_base, replace_other_chars_base, collapse_hyphens_fixed
    by done.
  destruct s as [|c t]; [done|]. unfold strip_hyphens.
  simpl in Hlead. fold (is_hyphen c). rewrite Hlead.
  by apply strip_trailing_hyphen_fixed.
Qed.

Lemma getBaseModelName_twice modelName :
  getBaseModelName (getBaseModelName modelName) = getBaseModelName modelName.
Proof. apply getBaseModelName_fixed, getBaseModelName_in_base_form. Qed.

(** X1: whatever the model name, [getBaseModelName] returns a name made of
    lower-case letters, digits, dots, slashes and hyphens only, with no two
    hyphens in a row and no hyphen at either end. *)
Theorem getBaseModelName_base_form :
  ∀ modelName : string, base_form (getBaseModelName modelName) = true.
Proof. apply getBaseModelName_in_base_form. Qed.

(** X2: [getBaseModelName] is idempotent, and the names it leaves unchanged
    are exactly the names in base form: normalising a base name again gives
    the same name. *)
Theorem getBaseModelName_idempotent :
  ∀ modelName : string,
    getBaseModelName (getBaseModelName modelName) = getBaseModelName modelName
    ∧ (getBaseModelName modelName = modelName ↔ base_form modelName = true).
Proof.
  intros modelName. split; [apply getBaseModelName_twice|]. split.
  - intros <-. apply getBaseModelName_in_base_form.
  - apply getBaseModelName_fixed.
Qed.


(** *** The cache as a store *)

Lemma hasModelCapability_store model type cache :
  let answer := fst (hasModelCapability model type cache) in
  let cache' := snd (hasModelCapability model type cache) in
  cache ⊆ cache'
  ∧ (∀ k, k ≠ cacheKey model type → cache' !! k = cache !! k)
  ∧ cache' !! cacheKey model type = Some answer.
Proof.
  destruct (cache !! cacheKey model type) as [v|] eqn:Hc.
  - rewrite (hasModelCapability_hit _ _ _ _ Hc). simpl. by repeat split.
  - rewrite (hasModelCapability_miss _ _ _ Hc). simpl. repeat split.
    + by apply insert_subseteq.
    + intros k Hk. by rewrite lookup_insert_ne.
    + by rewrite lookup_insert_eq.
Qed.

(** X3: a call never changes or removes an entry the cache already holds;
    it touches at most the key of the call, and what it returns is what the
    cache holds under that key afterwards. *)
Theorem hasModelCapability_cache_grows :
  ∀ (model : IProvider) (type : ModelType) (cache : gmap string (option bool)),
    let answer := fst (hasModelCapability model type cache) in
    let cache' := snd (hasModelCapability model type cache) in
    cache ⊆ cache'
    ∧ (∀ k, k ≠ cacheKey model type → cache' !! k = cache !! k)
    ∧ cache' !! cacheKey model type = Some answer.
Proof. apply hasModelCapability_store. Qed.

Lemma cacheKey_fields m1 m2 type :
  id m1 = id m2 → platform m1 = platform m2 → capabilities m1 = capabilities m2 →
  cacheKey m1 type = cacheKey m2 type.
Proof. unfold cacheKey. by intros -> -> ->. Qed.

(** X4: the cache does not see the model names (nor the name, the base URL,
    the key or the context limit of the provider): once a provider has been
    asked about, any provider with the same id, platform and capabilities
    gets the same answer, whatever its model list. *)
Theorem hasModelCapability_blind_to_model_list :
  ∀ (m1 m2 : IProvider) (type : ModelType) (cache : gmap string (option bool)),
    id m1 = id m2 →
    platform m1 = platform m2 →
    capabilities m1 = capabilities m2 →
    fst (hasModelCapability m2 type (snd (hasModelCapability m1 type cache)))
    = fst (hasModelCapability m1 type cache).
Proof.
  intros m1 m2 type cache Hid Hp Hc.
  destruct (hasModelCapability_store m1 type cache) as (_ & _ & Hkey).
  rewrite (cacheKey_fields m1 m2 type Hid Hp Hc) in Hkey.
  by rewrite (hasModelCapability_hit _ _ _ _ Hkey).
Qed.

Lemma hasModelCapability_blind_witness :
  id (provider_with ["gpt-4o"]) = id (provider_with ["dall-e-3"])
  ∧ fst (hasModelCapability (provider_with ["dall-e-3"]) vision
           (snd (hasModelCapability (provider_with ["gpt-4o"]) vision ∅)))
    = fst (hasModelCapability (provider_with ["gpt-4o"]) vision ∅).
Proof.
  split; [reflexivity|].
  apply (hasModelCapability_blind_to_model_list
           (provider_with ["gpt-4o"]) (provider_with ["dall-e-3"]) vision ∅);
    reflexivity.
Defined.

Lemma append_assoc (a b c : string) : (a +:+ b) +:+ c = a +:+ (b +:+ c).
Proof.
  induction a as [|x a IH]; [done|].
  change (String x ((a +:+ b) +:+ c) = String x (a +:+ (b +:+ c))).
  by rewrite IH.
Qed.

(** X5: the key joins id and platform with a hyphen and does not escape
    hyphens inside them, so a provider whose id ends in [-x] and a provider
    whose platform starts with [x-] share their cache entries. *)
Theorem cacheKey_hyphen_collision :
  ∀ (i x p n u k : string) (models : list string)
    (caps : option (list ModelCapability)) (limit : option nat) (type : ModelType),
    cacheKey {| id := i +:+ "-" +:+ x; platform := p; name := n; baseUrl := u;
                apiKey := k; model := models; capabilities := caps;
                contextLimit := limit |} type
    = cacheKey {| id := i; platform := x +:+ "-" +:+ p; name := n; baseUrl := u;
                  apiKey := k; model := models; capabilities := caps;
                  contextLimit := limit |} type.
Proof.
  intros. unfold cacheKey. simpl id. simpl platform. simpl capabilities.
  by rewrite !append_assoc.
Qed.

(** X6: after [clearModelCapabilitiesCache] the next call computes the
    three tiers afresh and the cache then holds that one answer. *)
Theorem hasModelCapability_after_clear :
  ∀ (model : IProvider) (type : ModelType) (cache : gmap string (option bool)),
    hasModelCapability model type (clearModelCapabilitiesCache cache)
    = (three_tier_resolution model type,
       {[ cacheKey model type := three_tier_resolution model type ]}).
Proof.
  intros model type cache. unfold clearModelCapabilitiesCache.
  rewrite hasModelCapability_miss by apply lookup_empty.
  by rewrite insert_empty.
Qed.

(** *** The platform-level answer against the per-model answer *)

Lemma name_supports_specific platformModel type n :
  name_supports type n = true
  ↔ hasSpecificModelCapability platformModel n type = Some true.
Proof.
  unfold name_supports, hasSpecificModelCapability.
  destruct (existsb _ (CAPABILITY_EXCLUSIONS type)); [done|].
  by destruct (test (CAPABILITY_PATTERNS type) (getBaseModelName n)).
Qed.

(** X7: without a user selection and without a provider rule, a first
    [hasModelCapability] answers true exactly when
    [hasSpecificModelCapability] answers true for one of the provider's
    model names, and otherwise answers undefined: it never answers false,
    not even when every model name is blacklisted. *)
Theorem hasModelCapability_by_model_names :
  ∀ (model : IProvider) (type : ModelType),
    getUserSelectedCapability model type = None →
    getProviderCapabilityRule (platform model) type = None →
    let answer := fst (hasModelCapability model type ∅) in
    (answer = Some true
     ↔ ∃ modelName, modelName ∈ Storage.model model
                    ∧ hasSpecificModelCapability model modelName type = Some true)
    ∧ (answer = Some true ∨ answer = None).
Proof.
  intros model type Hu Hp. unfold hasModelCapability.
  rewrite lookup_empty, Hu, Hp. simpl.
  destruct (existsb (name_supports type) (Storage.model model)) eqn:He.
  - split; [|by left]. split; [|done]. intros _.
    apply existsb_exists in He as (n & Hin & Hn).
    exists n. split; [by apply list_elem_of_In|].
    by apply name_supports_specific.
  - split; [|by right]. split; [done|]. intros (n & Hin & Hn).
    assert (existsb (name_supports type) (Storage.model model) = true) as He'.
    { apply existsb_exists. exists n. split; [by apply list_elem_of_In|].
      by apply (name_supports_specific model). }
    congruence.
Qed.

Lemma hasModelCapability_by_model_names_witness :
  getUserSelectedCapability (provider_with ["text-embedding-3-small"]) vision = None
  ∧ hasSpecificModelCapability (provider_with ["text-embedding-3-small"])
      "text-embedding-3-small" vision = Some false
  ∧ (fst (hasModelCapability (provider_with ["text-embedding-3-small"]) vision ∅)
     = Some true
     ∨ fst (hasModelCapability (provider_with ["text-embedding-3-small"]) vision ∅)
       = None).
Proof.
  split; [reflexivity|]. split; [vm_compute; reflexivity|].
  apply (hasModelCapability_by_model_names
           (provider_with ["text-embedding-3-small"]) vision);
    reflexivity.
Defined.

(** X8: in the function-calling blacklist the optional groups after [aqa],
    [imagen] and [gemini-1] are dead: the list excludes exactly the names
    in which one of eight plain fragments occurs. *)
Theorem function_calling_exclusions_plain :
  ∀ baseModelName : string,
    existsb (λ excludePattern, test excludePattern baseModelName)
            (CAPABILITY_EXCLUSIONS function_calling)
    = existsb (λ fragment, test (re_i (Lit fragment)) baseModelName)
              ["aqa"; "imagen"; "o1-mini"; "o1-preview"; "gemini-1"; "dall-e";
               "embed"; "rerank"].
Proof.
  intros n. unfold CAPABILITY_EXCLUSIONS, re_i.
  cbn [existsb]. by rewrite !test_optional_suffix.
Qed.


(** X23: the per-model answer does not change when a model name is
    replaced by its base name: upper case, spaces, underscores and other
    characters outside the base alphabet never influence it. *)
Theorem hasSpecificModelCapability_base_name :
  ∀ (platformModel : IProvider) (modelName : string) (type : ModelType),
    hasSpecificModelCapability platformModel (getBaseModelName modelName) type
    = hasSpecificModelCapability platformModel modelName type
    ∧ name_supports type (getBaseModelName modelName)
      = name_supports type modelName.
Proof.
  intros platformModel modelName type.
  unfold hasSpecificModelCapability, name_supports.
  by rewrite getBaseModelName_twice.
Qed.


End Capabilities.

(* ===================================================================== *)
(** ** GeminiAgentManager.ts: the constructor's bootstrap chain           *)
(* ===================================================================== *)

Module Bootstrap.
Import Manager.

(** The ['gemini.config'] section of the configuration store. *)
Record GeminiConfig : Type := {
  authType : string;
  proxy : string;
  GOOGLE_GEMINI_BASE_URL : option string;
  GOOGLE_CLOUD_PROJECT : option string;
  accountProjects : option (gmap string string);
  yoloMode : option bool
}.

(** How [ProcessConfig.get('gemini.config')] settles: it rejects, or it
    yields the stored section, which may be absent. *)
Inductive ConfigResult : Type :=
| ConfigRejects (e : JsError)
| ConfigValue (config : option GeminiConfig).

(** How [getOauthInfoWithCache(proxy)] settles: it throws, or it yields
    nothing, or it yields account information whose [email] may be
    absent. *)
Inductive OauthResult : Type :=
| OauthThrows
| OauthNull
| OauthInfo (email : option string).

(** The argument of the constructor. *)
Record ConstructorData : Type := {
  workspace : string;
  data_conversation_id : string;
  webSearchEngine : option ToolConfig.WebSearchEngine;
  contextFileName : option string;
  contextContent : option string
}.

(** The object handed to [this.start]: the spread of the stored section
    (nothing when it is absent), then the fields written after it;
    [GOOGLE_CLOUD_PROJECT] is written last and so replaces the stored
    one. *)
Record StartOptions : Type := {
  start_authType : option string;
  start_proxy : option string;
  start_GOOGLE_GEMINI_BASE_URL : option string;
  start_accountProjects : option (gmap string string);
  start_yoloMode : option bool;
  start_GOOGLE_CLOUD_PROJECT : option string;
  start_workspace : string;
  start_model : ToolConfig.TProviderWithModel;
  start_webSearchEngine : option ToolConfig.WebSearchEngine;
  start_mcpServers : gmap string McpProjection.UiMcpServerConfig;
  start_contextFileName : option string;
  start_contextContent : option string
}.

(** What the surroundings do during the chain: the two reads of the
    configuration store, the OAuth lookup for a proxy, and how
    [this.start(options)] of the base class settles for the options it is
    given. *)
Record Outside : Type := {
  gemini_config : ConfigResult;
  mcp_config : McpProjection.ConfigRead;
  oauth : option string → OauthResult;
  start_result : StartOptions → Settled
}.

(** The calls the chain makes, in order. *)
Inductive Step : Type :=
| getOauthInfoWithCache (proxy : option string)
| start (options : StartOptions)
| injectHistoryFromDatabase.

(** A truthy string: present and not empty. *)
Definition truthy (s : option string) : option string :=
  match s with
  | Some EmptyString | None => None
  | Some s => Some s
  end.

(** The [try] block that resolves [projectId]. *)
Definition resolve_projectId (config : option GeminiConfig) (info : OauthResult)
  : option string :=
  match info with
  | OauthInfo email =>
      match truthy email, config ≫= accountProjects with
      | Some email, Some projects => projects !! email
      | _, _ => None
      end
  | OauthNull | OauthThrows => None
  end.

Definition start_options (data : ConstructorData)
           (model : ToolConfig.TProviderWithModel)
           (config : option GeminiConfig)
           (mcpServers : gmap string McpProjection.UiMcpServerConfig)
           (projectId : option string) : StartOptions :=
  {| start_authType := authType <$> config;
     start_proxy := proxy <$> config;
     start_GOOGLE_GEMINI_BASE_URL := config ≫= GOOGLE_GEMINI_BASE_URL;
     start_accountProjects := config ≫= accountProjects;
     start_yoloMode := config ≫= yoloMode;
     start_GOOGLE_CLOUD_PROJECT := projectId;
     start_workspace := workspace data;
     start_model := model;
     start_webSearchEngine := webSearchEngine data;
     start_mcpServers := mcpServers;
     start_contextFileName := contextFileName data;
     start_contextContent := contextContent data |}.

(** [this.bootstrap]: how the promise settles, and the calls made on the
    way. [Promise.all] rejects when the configuration read rejects;
    [getMcpServers] never rejects. [injectHistoryFromDatabase] is called
    once [start] has fulfilled; its body is left out of the sources, and as
    it stands there the call fulfils. *)
Definition bootstrap (data : ConstructorData)
           (model : ToolConfig.TProviderWithModel) (out : Outside)
  : Settled * list Step :=
  match gemini_config out with
  | ConfigRejects e => (Rejected e, [])
  | ConfigValue config =>
      let mcpServers := McpProjection.getMcpServers (mcp_config out) in
      let info := oauth out (proxy <$> config) in
      let projectId := resolve_projectId config info in
      let options := start_options data model config mcpServers projectId in
      let steps := [getOauthInfoWithCache (proxy <$> config); start options] in
      match start_result out options with
      | Rejected e => (Rejected e, steps)
      | Fulfilled => (Fulfilled, steps ++ [injectHistoryFromDatabase])
      end
  end.

(** The options of the [start] calls of a trace. *)
Definition started (steps : list Step) : list StartOptions :=
  omap (λ s, match s with start o => Some o | _ => None end) steps.

(** X17: the project id handed to [start] is never the stored global
    [GOOGLE_CLOUD_PROJECT]: whenever [start] is called with a project id,
    that id is the entry of [accountProjects] under the non-empty email the
    OAuth lookup returned; when the lookup throws, yields nothing or yields
    no email, or when there is no [accountProjects], [start] is called
    without a project id. *)
Theorem start_project_id_of_account :
  ∀ (data : ConstructorData) (model : ToolConfig.TProviderWithModel)
    (out : Outside) (options : StartOptions) (p : string),
    options ∈ started (snd (bootstrap data model out)) →
    (start_GOOGLE_CLOUD_PROJECT options = Some p
     ↔ ∃ config projects email,
         gemini_config out = ConfigValue (Some config)
         ∧ accountProjects config = Some projects
         ∧ oauth out (Some (proxy config)) = OauthInfo (Some email)
         ∧ email ≠ EmptyString
         ∧ projects !! email = Some p).
Proof.
  intros data model out options p Hin.
  unfold bootstrap in Hin.
  destruct (gemini_config out) as [e | config] eqn:Hconfig;
    [by apply elem_of_nil in Hin|].
  assert (options = start_options data model config
                      (McpProjection.getMcpServers (mcp_config out))
                      (resolve_projectId config (oauth out (proxy <$> config))))
    as ->.
  { destruct (start_result out _);
      simpl in Hin; apply list_elem_of_singleton in Hin; done. }
  simpl. unfold resolve_projectId. split.
  - destruct (oauth out (proxy <$> config)) as [| |[email|]] eqn:Ho; try done.
    destruct config as [config|]; simpl in *; [|by destruct email].
    destruct email as [|c email]; simpl; [done|].
    destruct (accountProjects config) as [projects|] eqn:Hp; [|done].
    intros Hl. by exists config, projects, (String c email).
  - intros (config' & projects & email & [= ->] & Hp & Ho & Hne & Hl).
    simpl. rewrite Ho. destruct email; [done|]. simpl. by rewrite Hp.
Qed.

Definition sample_data : ConstructorData :=
  {| workspace := "/w"; data_conversation_id := "c1"; webSearchEngine := None;
     contextFileName := None; contextContent := None |}.

Definition sample_model : ToolConfig.TProviderWithModel :=
  {| ToolConfig.id := "p1"; ToolConfig.name := "n"; ToolConfig.platform := "gemini";
     ToolConfig.baseUrl := EmptyString; ToolConfig.apiKey := EmptyString;
     ToolConfig.useModel := "gemini-2.5-pro" |}.

(** A stored section with a stale global project and one account. *)
Definition sample_config : GeminiConfig :=
  {| authType := "oauth-personal"; proxy := EmptyString;
     GOOGLE_GEMINI_BASE_URL := None;
     GOOGLE_CLOUD_PROJECT := Some "stale-global";
     accountProjects := Some {[ "a@example.org" := "project-a" ]};
     yoloMode := None |}.

Definition sample_outside (info : OauthResult) : Outside :=
  {| gemini_config := ConfigValue (Some sample_config);
     mcp_config := McpProjection.ReadThrows;
     oauth := λ _, info;
     start_result := λ _, Fulfilled |}.

(** With the account lookup failing, [start] gets no project id although
    the store still holds the old global one. *)
Example start_without_stale_project :
  start_GOOGLE_CLOUD_PROJECT
    <$> started (snd (bootstrap sample_data sample_model (sample_outside OauthThrows)))
  = [None]
  ∧ start_GOOGLE_CLOUD_PROJECT
      <$> started (snd (bootstrap sample_data sample_model
                          (sample_outside (OauthInfo (Some "a@example.org")))))
    = [Some "project-a"].
Proof. split; reflexivity. Qed.

Definition sample_options : StartOptions :=
  start_options sample_data sample_model (Some sample_config) ∅ (Some "project-a").

Lemma start_project_id_witness :
  sample_options
    ∈ started (snd (bootstrap sample_data sample_model
                      (sample_outside (OauthInfo (Some "a@example.org")))))
  ∧ (start_GOOGLE_CLOUD_PROJECT sample_options = Some "project-a"
     ↔ ∃ config projects email,
         gemini_config (sample_outside (OauthInfo (Some "a@example.org")))
         = ConfigValue (Some config)
         ∧ accountProjects config = Some projects
         ∧ oauth (sample_outside (OauthInfo (Some "a@example.org")))
             (Some (proxy config)) = OauthInfo (Some email)
         ∧ email ≠ EmptyString
         ∧ projects !! email = Some "project-a").
Proof.
  assert (sample_options
            ∈ started (snd (bootstrap sample_data sample_model
                              (sample_outside (OauthInfo (Some "a@example.org"))))))
    as Hin by (apply list_elem_of_singleton; reflexivity).
  split; [exact Hin|].
  exact (start_project_id_of_account sample_data sample_model
           (sample_outside (OauthInfo (Some "a@example.org")))
           sample_options "project-a" Hin).
Defined.

(** A [start] that needs a project id: how the bootstrap settles then
    depends on the account lookup, through the options [start] is given. *)
Definition start_needing_project (options : StartOptions) : Settled :=
  match start_GOOGLE_CLOUD_PROJECT options with
  | Some _ => Fulfilled
  | None => Rejected boom
  end.

Example bootstrap_settles_as_start :
  bootstrap sample_data sample_model
    {| gemini_config := ConfigValue (Some sample_config);
       mcp_config := McpProjection.ReadThrows;
       oauth := λ _, OauthThrows;
       start_result := start_needing_project |}
  = (Rejected boom,
     [getOauthInfoWithCache (Some EmptyString);
      start (start_options sample_data sample_model (Some sample_config) ∅ None)])
  ∧ bootstrap sample_data sample_model
      {| gemini_config := ConfigValue (Some sample_config);
         mcp_config := McpProjection.ReadThrows;
         oauth := λ _, OauthInfo (Some "a@example.org");
         start_result := start_needing_project |}
    = (Fulfilled,
       [getOauthInfoWithCache (Some EmptyString);
        start sample_options;
        injectHistoryFromDatabase]).
Proof. split; reflexivity. Qed.

(** The options the chain builds for [start] from a stored section. *)
Definition built_options (data : ConstructorData)
           (model : ToolConfig.TProviderWithModel) (out : Outside)
           (config : option GeminiConfig) : StartOptions :=
  start_options data model config
    (McpProjection.getMcpServers (mcp_config out))
    (resolve_projectId config (oauth out (proxy <$> config))).

(** X18: a failing read of the MCP configuration or a failing OAuth lookup
    never fails the bootstrap. When the ['gemini.config'] read rejects,
    the bootstrap rejects with its reason and [start] is not called. When
    it succeeds, [start] is called exactly once, whatever the MCP read and
    the OAuth lookup did: with the constructor's workspace and model, with
    the MCP projection (empty when the MCP read throws or yields no array)
    and without a project id when the lookup throws; the bootstrap then
    settles as that [start] call settles, and the history is injected only
    when it has fulfilled. *)
Theorem bootstrap_sequencing :
  ∀ (data : ConstructorData) (model : ToolConfig.TProviderWithModel)
    (out : Outside),
    let settled := fst (bootstrap data model out) in
    let steps := snd (bootstrap data model out) in
    match gemini_config out with
    | ConfigRejects e => settled = Rejected e ∧ steps = []
    | ConfigValue config =>
        ∃ options,
          started steps = [options]
          ∧ settled = start_result out options
          ∧ (injectHistoryFromDatabase ∈ steps ↔ settled = Fulfilled)
          ∧ start_workspace options = workspace data
          ∧ start_model options = model
          ∧ start_mcpServers options
            = McpProjection.getMcpServers (mcp_config out)
          ∧ (mcp_config out = McpProjection.ReadThrows
             ∨ mcp_config out = McpProjection.ReadNotArray →
             start_mcpServers options = ∅)
          ∧ (oauth out (proxy <$> config) = OauthThrows →
             start_GOOGLE_CLOUD_PROJECT options = None)
    end.
Proof.
  intros data model out. unfold bootstrap. simpl.
  destruct (gemini_config out) as [e | config] eqn:Hc; simpl; [done|].
  exists (built_options data model out config). fold (built_options data model out config).
  destruct (start_result out (built_options data model out config)) as [|e1] eqn:Hs;
    simpl.
  - split; [done|]. split; [done|]. split.
    { split; [done | intros _]. rewrite !elem_of_cons. auto. }
    split; [done|]. split; [done|]. split; [done|]. split.
    + by intros [-> | ->].
    + by intros ->.
  - split; [done|]. split; [done|]. split.
    { split; [|done]. rewrite !elem_of_cons, elem_of_nil. by intros [|[|]]. }
    split; [done|]. split; [done|]. split; [done|]. split.
    + by intros [-> | ->].
    + by intros ->.
Qed.

(** How the bootstrap settles, by cases. *)
Lemma bootstrap_settled data model out :
  fst (bootstrap data model out)
  = match gemini_config out with
    | ConfigRejects e => Rejected e
    | ConfigValue config => start_result out (built_options data model out config)
    end.
Proof.
  unfold bootstrap. destruct (gemini_config out) as [e | config]; [done|].
  fold (built_options data model out config).
  by destruct (start_result out (built_options data model out config)).
Qed.

Section WithManager.

Variable handlePreviewOpenEvent : IResponseMessage → bool.
Variable transformMessage : IResponseMessage → option TMessage.

(** X19: with the constructor's chain as the manager's bootstrap promise,
    a [sendMessage] forwards its input to the subprocess exactly when the
    ['gemini.config'] read succeeded and [start] fulfilled on the options
    built from it, whatever the MCP read and the OAuth lookup did, and
    forwards nothing otherwise; after a rejected configuration read every
    [sendMessage] rejects (with the reason of the read when its text can be
    evaluated, with the error thrown in the handler otherwise) and [start]
    is never called. *)
Theorem sendMessage_after_bootstrap :
  ∀ (data : ConstructorData) (model : ToolConfig.TProviderWithModel)
    (out : Outside) (arrivals1 arrivals2 : list IResponseMessage)
    (accepted : Settled) (thrown : JsError) (message : SendData)
    (this : Manager),
    let env := {| Manager.bootstrap := fst (bootstrap data model out);
                  arrivals_while_bootstrapping := arrivals1;
                  arrivals_while_settling := arrivals2;
                  super_result := accepted;
                  text_throws := thrown |} in
    let call := sendMessage handlePreviewOpenEvent transformMessage env message in
    forwarded (trace call this)
    = match gemini_config out with
      | ConfigRejects _ => []
      | ConfigValue config =>
          match start_result out (built_options data model out config) with
          | Fulfilled => [message]
          | Rejected _ => []
          end
      end
    ∧ ∀ e, gemini_config out = ConfigRejects e →
           started (snd (bootstrap data model out)) = []
           ∧ result call this = match error_text e with
                                | Some _ => Rejected e
                                | None => Rejected thrown
                                end.
Proof.
  intros data model out arrivals1 arrivals2 accepted thrown message this. simpl.
  rewrite sendMessage_result, sendMessage_forwarded. simpl.
  rewrite bootstrap_settled. split.
  - by destruct (gemini_config out).
  - intros e He. unfold bootstrap. by rewrite He.
Qed.

End WithManager.

End Bootstrap.

(* ===================================================================== *)
(** ** MessageToolGroup.tsx: what each tool call renders as               *)
(* ===================================================================== *)

Module ToolGroup.
Import ToolConfirmation.

(** [resultDisplay]: a string, an object with a [fileDiff] (a
    [WriteFileResult]), or another object. *)
Inductive ResultDisplay : Type :=
| TextResult (text : string)
| FileDiffResult (fileDiff fileName : string)
| OtherResult (json : string).

(** One entry of [message.content]. *)
Record ToolCall : Type := {
  callId : string;
  name : string;
  status : string;
  description : option string;
  resultDisplay : option ResultDisplay;
  confirmationDetails : option ConfirmationDetails
}.

(** What the [map] callback returns for an entry. *)
Inductive Rendered : Type :=
| ConfirmationDetailsView (key : string) (content : ToolCall)
| MessageFileChanges (key : string) (writeFileChanges : list (string * string))
| Nothing
| AlertView (key : string) (alertType : string) (loading : bool)
            (canceled : bool) (shownDescription : option string)
            (shownResult : option ResultDisplay).

(** A truthy [resultDisplay]: objects are, strings when not empty. *)
Definition truthy_result (r : option ResultDisplay) : bool :=
  match r with
  | None | Some (TextResult EmptyString) => false
  | Some _ => true
  end.

(** A truthy description. *)
Definition truthy_text (d : option string) : bool :=
  match d with
  | None | Some EmptyString => false
  | Some _ => true
  end.

(** [item.name === 'WriteFile' && item.resultDisplay
     && typeof item.resultDisplay === 'object' && 'fileDiff' in item.resultDisplay] *)
Definition is_write_file_diff (item : ToolCall) : bool :=
  String.eqb (name item) "WriteFile"
  && match resultDisplay item with
     | Some (FileDiffResult _ _) => true
     | _ => false
     end.

(** [.map((item) => item.resultDisplay as WriteFileResult)] on the filtered
    entries. *)
Definition as_write_file_result (item : ToolCall) : option (string * string) :=
  match resultDisplay item with
  | Some (FileDiffResult fileDiff fileName) => Some (fileDiff, fileName)
  | _ => None
  end.

Definition writeFileResults (content : list ToolCall) : list (string * string) :=
  omap as_write_file_result (List.filter is_write_file_diff content).

(** [findIndex]: [None] stands for [-1]. *)
Fixpoint findIndex {A} (p : A → bool) (l : list A) : option nat :=
  match l with
  | [] => None
  | x :: l => if p x then Some 0 else S <$> findIndex p l
  end.

Definition firstWriteFileIndex (content : list ToolCall) : option nat :=
  findIndex is_write_file_diff content.

(** [typeof resultDisplay !== 'string'] *)
Definition not_a_string (r : option ResultDisplay) : bool :=
  match r with
  | Some (TextResult _) => false
  | _ => true
  end.

(** The generic display of a tool call. *)
Definition alert (item : ToolCall) : Rendered :=
  let isLoading := negb (String.eqb (status item) "Success")
                   && negb (String.eqb (status item) "Error")
                   && negb (String.eqb (status item) "Canceled") in
  AlertView (callId item)
    (if String.eqb (status item) "Error" then "error"
     else if String.eqb (status item) "Success" then "success"
     else if String.eqb (status item) "Canceled" then "warning"
     else "info")
    isLoading
    (String.eqb (status item) "Canceled")
    (if truthy_text (description item) then description item else None)
    (if truthy_result (resultDisplay item) then resultDisplay item else None).

(** The callback of [message.content.map]. *)
Definition render_item (content : list ToolCall) (index : nat) (item : ToolCall)
  : Rendered :=
  match confirmationDetails item with
  | Some _ => ConfirmationDetailsView (callId item) item
  | None =>
      if String.eqb (name item) "WriteFile" && not_a_string (resultDisplay item)
      then
        match resultDisplay item with
        | Some (FileDiffResult _ _) =>
            if bool_decide (Some index = firstWriteFileIndex content)
               && Nat.ltb 0 (length (writeFileResults content))
            then MessageFileChanges (callId item) (writeFileResults content)
            else Nothing
        | _ => alert item
        end
      else alert item
  end.

Definition render (content : list ToolCall) : list Rendered :=
  imap (render_item content) content.

(** *** The file-change summary *)

Lemma findIndex_Some {A} (p : A → bool) l i :
  findIndex p l = Some i →
  ∃ x, l !! i = Some x ∧ p x = true.
Proof.
  revert i. induction l as [|y l IH]; intros i; simpl; [done|].
  destruct (p y) eqn:Hy.
  - intros [= <-]. by exists y.
  - destruct (findIndex p l) as [j|]; simpl; [|done].
    intros [= <-]. by apply IH.
Qed.

Lemma writeFileResults_nonempty content item :
  item ∈ content → is_write_file_diff item = true →
  0 < length (writeFileResults content).
Proof.
  intros Hin Hp. unfold writeFileResults.
  induction content as [|x content IH]; [by apply elem_of_nil in Hin|].
  simpl. apply elem_of_cons in Hin as [<- | Hin].
  - rewrite Hp. simpl. unfold is_write_file_diff in Hp.
    apply andb_true_iff in Hp as [_ Hp]. unfold as_write_file_result.
    destruct (resultDisplay item) as [[| |]|]; try done. simpl. lia.
  - destruct (is_write_file_diff x) eqn:Hx; [|by apply IH].
    simpl. destruct (as_write_file_result x); simpl; [lia | by apply IH].
Qed.

(** X21: in a rendered tool group the file-change summary appears at one
    position at most, the position of the first [WriteFile] call that has a
    diff; it appears there exactly when that call carries no confirmation
    details, and it then lists the diffs of all such calls in order. Every
    other [WriteFile] call with a diff and without confirmation details
    renders nothing, so when the first such call still carries confirmation
    details the diffs of the others are shown nowhere. *)
Theorem render_file_changes_once :
  ∀ (content : list ToolCall),
    (∀ i key changes,
        render content !! i = Some (MessageFileChanges key changes)
        ↔ firstWriteFileIndex content = Some i
          ∧ changes = writeFileResults content
          ∧ ∃ item, content !! i = Some item
                    ∧ confirmationDetails item = None ∧ callId item = key)
    ∧ (∀ i item,
          content !! i = Some item →
          is_write_file_diff item = true →
          confirmationDetails item = None →
          firstWriteFileIndex content ≠ Some i →
          render content !! i = Some Nothing).
Proof.
  intros content. unfold render. split.
  - intros i key changes. rewrite list_lookup_imap. split.
    + destruct (content !! i) as [item|] eqn:Hi; [|done]. simpl.
      unfold render_item, alert.
      destruct (confirmationDetails item) eqn:Hc; [done|].
      destruct (String.eqb (name item) "WriteFile"
                && not_a_string (resultDisplay item)); [|done].
      destruct (resultDisplay item) as [[| |]|]; try done.
      destruct (bool_decide (Some i = firstWriteFileIndex content)) eqn:Hf;
        [|done].
      apply bool_decide_eq_true in Hf.
      destruct (Nat.ltb 0 _); [|done]. simpl.
      intros [= <- <-]. repeat split; [done|]. by exists item.
    + intros (Hf & -> & item & Hi & Hc & <-). rewrite Hi. simpl.
      destruct (findIndex_Some _ _ _ Hf) as (x & Hx & Hp).
      rewrite Hi in Hx. injection Hx as <-.
      assert (0 < length (writeFileResults content)) as Hlen.
      { eapply writeFileResults_nonempty; [|exact Hp].
        by eapply list_elem_of_lookup_2. }
      unfold render_item. rewrite Hc.
      unfold is_write_file_diff in Hp. apply andb_true_iff in Hp as [Hn Hr].
      rewrite Hn. destruct (resultDisplay item) as [[| |]|]; try done. simpl.
      rewrite Hf, bool_decide_eq_true_2 by done.
      apply Nat.ltb_lt in Hlen. by rewrite Hlen.
  - intros i item Hi Hp Hc Hf. rewrite list_lookup_imap, Hi. simpl.
    unfold render_item. rewrite Hc.
    unfold is_write_file_diff in Hp. apply andb_true_iff in Hp as [Hn Hr].
    rewrite Hn. destruct (resultDisplay item) as [[| |]|]; try done. simpl.
    rewrite bool_decide_eq_false_2; [done|]. congruence.
Qed.

(** A confirmed write followed by a second write: the first entry still
    carries its confirmation details, so no summary is rendered and the
    second diff is dropped. *)
Definition write_call (key : string) (details : option ConfirmationDetails)
  : ToolCall :=
  {| callId := key; name := "WriteFile"; status := "Success";
     description := None;
     resultDisplay := Some (FileDiffResult "+x" "a.txt");
     confirmationDetails := details |}.

Example render_summary_lost :
  render [write_call "k1" (Some (EditDetails "t" None "a.txt"));
          write_call "k2" None]
  = [ConfirmationDetailsView "k1"
       (write_call "k1" (Some (EditDetails "t" None "a.txt")));
     Nothing].
Proof. reflexivity. Qed.

Example render_summary_first :
  render [write_call "k1" None; write_call "k2" None]
  = [MessageFileChanges "k1" [("+x", "a.txt"); ("+x", "a.txt")]; Nothing].
Proof. reflexivity. Qed.

End ToolGroup.

(* ===================================================================== *)
(** ** The MCP management section: what follows a saved server            *)
(* ===================================================================== *)

Module McpManagement.
Import Storage.

(** The calls to the hooks the section makes, in order. *)
Inductive Call : Type :=
| handleTestMcpConnection (server : IMcpServer)
| checkOAuthStatus (server : IMcpServer)
| syncMcpToAgents (server : IMcpServer) (flag : bool).

(** [transport.type === 'http' || transport.type === 'sse'] *)
Definition http_or_sse (server : IMcpServer) : bool :=
  match transport server with
  | TransportHTTP _ _ | TransportSSE _ _ => true
  | _ => false
  end.

(** The three steps taken for a server that was saved; [sync] is the
    [enabled] flag the caller looks at. *)
Definition after_saved (server : IMcpServer) (sync : bool) : list Call :=
  [handleTestMcpConnection server]
  ++ (if http_or_sse server then [checkOAuthStatus server] else [])
  ++ (if sync then [syncMcpToAgents server true] else []).

(** [wrappedHandleAddMcpServer(serverData)]: [addedServer] is what
    [handleAddMcpServer] resolved to, and the flag is read from the
    submitted data. *)
Definition wrappedHandleAddMcpServer (serverData_enabled : bool)
           (addedServer : option IMcpServer) : list Call :=
  match addedServer with
  | Some addedServer => after_saved addedServer serverData_enabled
  | None => []
  end.

(** [wrappedHandleEditMcpServer(editingMcpServer, serverData)] *)
Definition wrappedHandleEditMcpServer (serverData_enabled : bool)
           (updatedServer : option IMcpServer) : list Call :=
  match updatedServer with
  | Some updatedServer => after_saved updatedServer serverData_enabled
  | None => []
  end.

(** [wrappedHandleBatchImportMcpServers(serversData)]: here the flag is
    read from each added server. *)
Definition wrappedHandleBatchImportMcpServers
           (addedServers : option (list IMcpServer)) : list Call :=
  match addedServers with
  | Some addedServers =>
      flat_map (λ server, after_saved server (enabled server)) addedServers
  | None => []
  end.

(** The effect that follows a change of [mcpServers]. *)
Definition check_http_servers (mcpServers : list IMcpServer) : list Call :=
  checkOAuthStatus <$> List.filter http_or_sse mcpServers.

Definition tested (calls : list Call) : list IMcpServer :=
  omap (λ c, match c with handleTestMcpConnection s => Some s | _ => None end) calls.

Definition oauth_checked (calls : list Call) : list IMcpServer :=
  omap (λ c, match c with checkOAuthStatus s => Some s | _ => None end) calls.

Definition synced (calls : list Call) : list (IMcpServer * bool) :=
  omap (λ c, match c with syncMcpToAgents s f => Some (s, f) | _ => None end) calls.

(** X22: a batch import tests the connection of every added server, in
    order and once each; it checks the OAuth status of exactly the http and
    sse servers (never of a stdio or streamable_http server) and syncs
    exactly the enabled servers to the agents, each with the flag true.
    When nothing was added nothing is called. *)
Theorem batch_import_calls :
  ∀ addedServers : list IMcpServer,
    let calls := wrappedHandleBatchImportMcpServers (Some addedServers) in
    tested calls = addedServers
    ∧ oauth_checked calls = List.filter http_or_sse addedServers
    ∧ synced calls = (λ s, (s, true)) <$> List.filter enabled addedServers
    ∧ wrappedHandleBatchImportMcpServers None = []
    ∧ Forall (λ s, match transport s with
                   | TransportStdio _ _ _ | TransportStreamableHTTP _ _ => False
                   | _ => True
                   end) (oauth_checked calls).
Proof.
  intros addedServers. simpl.
  assert (tested (flat_map (λ s, after_saved s (enabled s)) addedServers)
          = addedServers
          ∧ oauth_checked (flat_map (λ s, after_saved s (enabled s)) addedServers)
            = List.filter http_or_sse addedServers
          ∧ synced (flat_map (λ s, after_saved s (enabled s)) addedServers)
            = (λ s, (s, true)) <$> List.filter enabled addedServers)
    as (Ht & Ho & Hs).
  { induction addedServers as [|s l (IHt & IHo & IHs)]; [done|].
    simpl. unfold tested, oauth_checked, synced in *.
    rewrite !omap_app, IHt, IHo, IHs. unfold after_saved.
    destruct (http_or_sse s), (enabled s); done. }
  rewrite Ht, Ho, Hs. repeat split; try done.
  apply Forall_forall. intros s Hin. apply list_elem_of_In in Hin.
  apply filter_In in Hin as [_ Hh]. unfold http_or_sse in Hh.
  by destruct (transport s).
Qed.

End McpManagement.
